(** * constance.backends.database.DatabaseBackend

    A shallow embedding of [src/constance/backends/database.py]: the
    cache-aside protocol of django-constance's database backend
    ([autofill], [mget], [get], [set], [clear]).

    The methods talk to three collaborators that live outside the file:
    the Django cache ([self._cache]), the ORM manager of the [Constance]
    model, and the [config_updated] signal.  Every such call is a node
    [Call c k] of a program tree; [perform] gives the collaborators'
    behaviour on a [world] (cache contents, table rows, availability of
    the database).  Python exceptions are the [Raise] leaves, and
    [try]/[except]/[else] is [try_except_else].

    [__init__] connects [clear] to the [post_save] signal of the model
    (line 52), so the [create] and the [save] of [set] are each followed
    by that receiver ([post_save]), with the signal's [created] flag.

    [exec] runs one program to its end and returns its result, the final
    world and the trace of its calls; [interleave] runs two programs
    call by call under a schedule, for the race between two writers.

    Not modelled: the [warn] side channel (it prints and changes
    nothing), cache expiry (all statements are about one expiry window),
    and the laziness of the [mget] generator ([mget] returns the list of
    pairs a consumer obtains by exhausting it, as [autofill] does). *)

From Stdlib Require Import ZArith String List Lia.
From stdpp Require Import base tactics option list strings gmap fin_maps.

Local Open Scope string_scope.
Local Open Scope list_scope.
Local Open Scope nat_scope.

(** ** Python values and exceptions *)

(** The values a configuration entry can hold ("opaque scalar"). *)
Inductive pyval : Type :=
| PNone
| PBool (b : bool)
| PInt (n : Z)
| PStr (s : string).

#[global] Instance pyval_eq_dec : EqDecision pyval.
Proof. solve_decision. Defined.

(** [bool(v)] *)
Definition truthy (v : pyval) : bool :=
  match v with
  | PNone => false
  | PBool b => b
  | PInt n => negb (n =? 0)%Z
  | PStr s => negb (String.eqb s "")
  end.

(** [v is None] *)
Definition is_None (v : pyval) : bool :=
  match v with PNone => true | _ => false end.

Inductive exn : Type :=
| OperationalError
| ProgrammingError
| IntegrityError
| DoesNotExist
| MultipleObjectsReturned
| KeyError.

(** The two "database is not there yet" errors the backend tolerates. *)
Inductive fault : Type := NotReadyOperational | NotReadyProgramming.

Definition exn_of_fault (f : fault) : exn :=
  match f with
  | NotReadyOperational => OperationalError
  | NotReadyProgramming => ProgrammingError
  end.

Inductive result (A : Type) : Type :=
| Ok (a : A)
| Err (e : exn).
Arguments Ok {A} a.
Arguments Err {A} e.

(** ** The collaborators' interface *)

(** A row of the [Constance] model. *)
Module Constance.
Record t : Type := Row { key : string; value : pyval }.
End Constance.
Abbreviation row := Constance.t.
Abbreviation Row := Constance.Row.

(** One constructor per external call made in the file.  [enter_autofill]
    is a ghost event: it marks an invocation of [autofill] in the trace
    and has no effect. *)
Inductive call : Type :=
| cache_get (k : string)                                  (* _cache.get(k) *)
| cache_get_many (ks : gset string)                       (* _cache.get_many(keys) *)
| cache_set_many (d : gmap string pyval) (timeout : option Z)
| cache_set (k : string) (v : pyval)                      (* _cache.set(k, v) *)
| cache_add (k : string) (v : pyval)                      (* _cache.add(k, v) *)
| cache_delete_many (ks : list string)                    (* _cache.delete_many(ks) *)
| db_get (k : string)                                     (* manager.get(key=k) *)
| db_filter (ks : gset string)                            (* manager.filter(key__in=ks) *)
| db_create (k : string) (v : pyval)                      (* atomic: queryset.create *)
| db_save (r : row)                                       (* r.save(); replies [created] *)
| signal_send (k : string) (old_value new_value : pyval)  (* config_updated.send *)
| enter_autofill.

Definition reply (c : call) : Type :=
  match c with
  | cache_get _ => pyval
  | cache_get_many _ => gmap string pyval
  | cache_add _ _ => bool
  | db_get _ => row
  | db_filter _ => list row
  | db_save _ => bool
  | _ => unit
  end.

(** ** Programs *)

Inductive prog (A : Type) : Type :=
| Ret (a : A)
| Raise (e : exn)
| Call (c : call) (k : result (reply c) → prog A).
Arguments Ret {A} a.
Arguments Raise {A} e.
Arguments Call {A} c k.

Fixpoint prog_bind {A B} (f : A → prog B) (p : prog A) : prog B :=
  match p with
  | Ret a => f a
  | Raise e => Raise e
  | Call c k => Call c (λ r, prog_bind f (k r))
  end.

#[global] Instance prog_mbind : MBind prog := @prog_bind.
#[global] Instance prog_mret : MRet prog := @Ret.

(** An external call whose exception, if any, propagates. *)
Definition do (c : call) : prog (reply c) :=
  Call c (λ r, match r with Ok x => Ret x | Err e => Raise e end).

(** [try: body / except: handler / else: orelse].  [handler e = None]
    means that no [except] clause matches [e]. *)
Fixpoint try_except_else {A B} (body : prog A)
    (handler : exn → option (prog B)) (orelse : A → prog B) : prog B :=
  match body with
  | Ret a => orelse a
  | Raise e => match handler e with Some h => h | None => Raise e end
  | Call c k => Call c (λ r, try_except_else (k r) handler orelse)
  end.

(** ** The world and the behaviour of the collaborators *)

Record world : Type := World {
  cache : gmap string pyval;   (* contents of the shared cache *)
  db_fault : option fault;     (* Some f: every query raises f *)
  rows : list row              (* the Constance table *)
}.

Definition set_cache (w : world) (c : gmap string pyval) : world :=
  World c (db_fault w) (rows w).
Definition set_rows (w : world) (rs : list row) : world :=
  World (cache w) (db_fault w) rs.

Definition has_key (k : string) (r : row) : bool := String.eqb (Constance.key r) k.

(** [UPDATE ... WHERE key = r.key] *)
Definition update_rows (r : row) (rs : list row) : list row :=
  map (λ r', if has_key (Constance.key r) r' then r else r') rs.

(** Modelled from the spec: the [Constance] model (constance/models.py) and
    the Django cache are outside the file.  Following sections 3 and 6 of
    the specification: a record is a key and a value; [get] raises
    DoesNotExist on no match; [create] raises a uniqueness error when the
    key is taken; [save] updates the record in place (inserting it when
    it is gone) and its reply tells whether it inserted, which is the
    [created] flag of the [post_save] signal it sends; every query raises
    the store-unavailable error while the store is not ready.  The cache is a finite map: [get] defaults to
    None, [get_many] returns the hits, [set]/[set_many] overwrite, [add]
    writes only when the key is free, [delete_many] removes. *)
Definition perform (c : call) (w : world) : result (reply c) * world :=
  match c return result (reply c) * world with
  | cache_get k => (Ok (default PNone (cache w !! k)), w)
  | cache_get_many ks => (Ok (filter (λ kv, kv.1 ∈ ks) (cache w)), w)
  | cache_set_many d _ => (Ok tt, set_cache w (d ∪ cache w))
  | cache_set k v => (Ok tt, set_cache w (<[k:=v]> (cache w)))
  | cache_add k v =>
      match cache w !! k with
      | Some _ => (Ok false, w)
      | None => (Ok true, set_cache w (<[k:=v]> (cache w)))
      end
  | cache_delete_many ks => (Ok tt, set_cache w (foldr delete (cache w) ks))
  | db_get k =>
      match db_fault w with
      | Some f => (Err (exn_of_fault f), w)
      | None =>
          match List.filter (has_key k) (rows w) with
          | [] => (Err DoesNotExist, w)
          | [r] => (Ok r, w)
          | _ => (Err MultipleObjectsReturned, w)
          end
      end
  | db_filter ks =>
      match db_fault w with
      | Some f => (Err (exn_of_fault f), w)
      | None => (Ok (filter (λ r, Constance.key r ∈ ks) (rows w)), w)
      end
  | db_create k v =>
      match db_fault w with
      | Some f => (Err (exn_of_fault f), w)
      | None =>
          if existsb (has_key k) (rows w)
          then (Err IntegrityError, w)
          else (Ok tt, set_rows w (rows w ++ [Row k v]))
      end
  | db_save r =>
      match db_fault w with
      | Some f => (Err (exn_of_fault f), w)
      | None =>
          if existsb (has_key (Constance.key r)) (rows w)
          then (Ok false, set_rows w (update_rows r (rows w)))
          else (Ok true, set_rows w (rows w ++ [r]))
      end
  | signal_send _ _ _ => (Ok tt, w)
  | enter_autofill => (Ok tt, w)
  end.

(** Running a program to completion: its result, the final world and the
    external calls it made, in order. *)
Record outcome (A : Type) : Type := Outcome {
  res : result A;
  final : world;
  trace : list call
}.
Arguments Outcome {A} res final trace.
Arguments res {A} o.
Arguments final {A} o.
Arguments trace {A} o.

Fixpoint exec {A} (p : prog A) (w : world) : outcome A :=
  match p with
  | Ret a => Outcome (Ok a) w []
  | Raise e => Outcome (Err e) w []
  | Call c k =>
      let '(r, w') := perform c w in
      let o := exec (k r) w' in
      Outcome (res o) (final o) (c :: trace o)
  end.

(** ** The backend *)

(** The attributes [__init__] sets from the settings, and the registry
    [settings.CONFIG] (its keys, in the dictionary's order).  [_cache] is
    the configured cache alias, or [None]. *)
Record backend : Type := Backend {
  _prefix : string;
  _autofill_timeout : option Z;
  _cache : option string;
  CONFIG : list string
}.

Definition _autofill_cachekey : string := "autofilled".

(** Truth value of an attribute that is [None] or an object. *)
Definition is_set {A} (o : option A) : bool :=
  match o with Some _ => true | None => false end.

(** Truth value of [_autofill_timeout]: [None] and [0] are false. *)
Definition timeout_set (t : option Z) : bool :=
  match t with Some n => negb (n =? 0)%Z | None => false end.

Definition add_prefix (self : backend) (key : string) : string :=
  _prefix self +:+ key.

(** [keys[k]] on a dictionary. *)
Definition subscript (keys : gmap string string) (k : string) : prog string :=
  match keys !! k with
  | Some v => Ret v
  | None => Raise KeyError
  end.

(** [for key, value in items: yield keys[key], value] *)
Fixpoint yield_items (keys : gmap string string) (items : list (string * pyval))
    : prog (list (string * pyval)) :=
  match items with
  | [] => Ret []
  | (k, v) :: items' =>
      k' ← subscript keys k;
      out ← yield_items keys items';
      Ret ((k', v) :: out)
  end.

(** [{self.add_prefix(key): key for key in keys}] *)
Definition prefixed_keys (self : backend) (keys : list string) : gmap string string :=
  foldl (λ d key, <[add_prefix self key := key]> d) ∅ keys.

(** Lines 90-93: the database part of [mget], under
    [contextlib.suppress(OperationalError, ProgrammingError)]. *)
Definition mget_stored (keys : gmap string string) : prog (list (string * pyval)) :=
  try_except_else
    (stored ← do (db_filter (dom keys));
     yield_items keys
       (map (λ const, (Constance.key const, Constance.value const)) stored))
    (λ e, match e with
          | OperationalError | ProgrammingError => Some (Ret [])
          | _ => None
          end)
    Ret.

(** [mget], with the call [self.autofill()] of line 80 as a parameter. *)
Definition mget_ (autofill : prog unit) (self : backend)
    (keys : list string) (fallback : bool) : prog (list (string * pyval)) :=
  if bool_decide (keys = []) then Ret [] else
  let keys := prefixed_keys self keys in
  if is_set (_cache self) && fallback then
    values ← do (cache_get_many (dom keys));
    values ← (if negb (size values =? size keys)
              then autofill;; do (cache_get_many (dom keys))
              else Ret values);
    hits ← yield_items keys (map_to_list values);
    let keys := filter (λ kv, values !! kv.1 = None) keys in
    if bool_decide (keys = ∅) then Ret hits
    else stored ← mget_stored keys; Ret (hits ++ stored)
  else mget_stored keys.

(** [autofill], with the scan [self.mget(settings.CONFIG, fallback=False)]
    of line 64 as a parameter. *)
Definition autofill_ (scan : prog (list (string * pyval))) (self : backend)
    : prog unit :=
  do enter_autofill;;
  if negb (timeout_set (_autofill_timeout self)) || negb (is_set (_cache self))
  then Ret tt else
  let full_cachekey := add_prefix self _autofill_cachekey in
  marker ← do (cache_get full_cachekey);
  if truthy marker then Ret tt else
  let autofill_values : gmap string pyval := {[ full_cachekey := PInt 1 ]} in
  pairs ← scan;
  let autofill_values :=
    foldl (λ d kv, <[add_prefix self kv.1 := kv.2]> d) autofill_values pairs in
  do (cache_set_many autofill_values (_autofill_timeout self)).

(** [autofill] calls [mget] with [fallback=False], and on that path [mget]
    does not call [autofill] back: the mutual recursion stops there (see
    [mget_no_fallback] below). *)
Definition autofill (self : backend) : prog unit :=
  autofill_ (mget_ (Ret tt) self (CONFIG self) false) self.

Definition mget (self : backend) (keys : list string) (fallback : bool)
    : prog (list (string * pyval)) :=
  mget_ (autofill self) self keys fallback.

Definition get (self : backend) (key : string) : prog pyval :=
  let key := add_prefix self key in
  value ← (if is_set (_cache self)
           then value ← do (cache_get key);
                if is_None value
                then autofill self;; do (cache_get key)
                else Ret value
           else Ret PNone);
  if is_None value then
    try_except_else
      (const ← do (db_get key); Ret (Constance.value const))
      (λ e, match e with
            | OperationalError | ProgrammingError | DoesNotExist => Some (Ret value)
            | _ => None
            end)
      (λ value,
         (if is_set (_cache self) then do (cache_add key value);; Ret tt else Ret tt);;
         Ret value)
  else Ret value.

Definition clear (self : backend) (created : bool) : prog unit :=
  if is_set (_cache self) && negb created then
    let keys := map (add_prefix self) (CONFIG self) in
    let keys := keys ++ [add_prefix self _autofill_cachekey] in
    do (cache_delete_many keys);;
    autofill self
  else Ret tt.

(** Line 52 connects [clear] to the [post_save] signal of the model, so
    every [create] and [save] of a record in this process runs it, with
    the [created] flag of the signal. *)
Definition post_save (self : backend) (created : bool) : prog unit :=
  clear self created.

(** What the [try] statement of [set] (lines 122-134) leaves behind:
    an early [return], [created = True], or the fetched [constance]. *)
Inductive fetched : Type :=
| NoOp
| Created
| Found (constance : row).

Definition set (self : backend) (key : string) (value : pyval) : prog unit :=
  let key := add_prefix self key in
  st ← try_except_else (do (db_get key))
         (λ e, match e with
               | OperationalError | ProgrammingError => Some (Ret NoOp)
               | DoesNotExist =>
                   Some (try_except_else
                           (do (db_create key value);; post_save self true)
                           (λ e, match e with
                                 | IntegrityError =>
                                     Some (constance ← do (db_get key);
                                           Ret (Found constance))
                                 | _ => None
                                 end)
                           (λ _, Ret Created))
               | _ => None
               end)
         (λ constance, Ret (Found constance));
  match st with
  | NoOp => Ret tt
  | _ =>
      old_value ← match st with
                  | Found constance =>
                      created ← do (db_save (Row (Constance.key constance) value));
                      post_save self created;;
                      Ret (Constance.value constance)
                  | _ => Ret PNone
                  end;
      (if is_set (_cache self) then do (cache_set key value) else Ret tt);;
      do (signal_send key old_value value)
  end.

(** ** Vocabulary of the statements *)

(** Sequencing of outcomes: what [exec] does on a bind. *)
Definition and_then {A B} (o : outcome A) (f : A → world → outcome B) : outcome B :=
  match res o with
  | Ok a =>
      let o' := f a (final o) in
      Outcome (res o') (final o') (trace o ++ trace o')
  | Err e => Outcome (Err e) (final o) (trace o)
  end.

(** Classification of the events of a trace. *)
Definition is_enter_autofill (c : call) : bool :=
  match c with enter_autofill => true | _ => false end.
Definition is_get_many (c : call) : bool :=
  match c with cache_get_many _ => true | _ => false end.
Definition is_db_call (c : call) : bool :=
  match c with
  | db_get _ | db_filter _ | db_create _ _ | db_save _ => true
  | _ => false
  end.
Definition is_db_write (c : call) : bool :=
  match c with db_create _ _ | db_save _ => true | _ => false end.
Definition is_cache_write (c : call) : bool :=
  match c with
  | cache_set_many _ _ | cache_set _ _ | cache_add _ _ | cache_delete_many _ => true
  | _ => false
  end.
Definition is_signal (c : call) : bool :=
  match c with signal_send _ _ _ => true | _ => false end.

Definition count (P : call → bool) (t : list call) : nat :=
  length (List.filter P t).

(** The cache key of the sentinel. *)
Definition full_cachekey (self : backend) : string :=
  add_prefix self _autofill_cachekey.

(** What a cache read of key [k] returns in world [w]. *)
Definition cached (w : world) (k : string) : pyval :=
  default PNone (cache w !! k).

(** The pairs the database part of [mget] yields from a table. *)
Definition stored_pairs (keys : gmap string string) (rs : list row)
    : list (string * pyval) :=
  omap (λ r, k ← keys !! Constance.key r; Some (k, Constance.value r)) rs.

(** The batch [autofill] hands to [set_many]. *)
Definition autofill_batch (self : backend) (pairs : list (string * pyval))
    : gmap string pyval :=
  foldl (λ d kv, <[add_prefix self kv.1 := kv.2]> d)
        {[ full_cachekey self := PInt 1 ]} pairs.

(** The pairs the registry scan of [autofill] collects in world [w]. *)
Definition scan_pairs (self : backend) (w : world) : list (string * pyval) :=
  match CONFIG self, db_fault w with
  | [], _ | _, Some _ => []
  | _, None => stored_pairs (prefixed_keys self (CONFIG self)) (rows w)
  end.

(** The database query of that scan, if any. *)
Definition scan_trace (self : backend) : list call :=
  match CONFIG self with
  | [] => []
  | _ => [db_filter (dom (prefixed_keys self (CONFIG self)))]
  end.

(** The reply of the cache to [get_many(ks)]. *)
Definition get_many_reply (ks : gset string) (w : world) : gmap string pyval :=
  filter (λ kv, kv.1 ∈ ks) (cache w).

(** The pairs [mget] yields for the hits [values] of the cache. *)
Definition hit_pairs (keys : gmap string string) (values : gmap string pyval)
    : list (string * pyval) :=
  omap (λ kv, k ← keys !! kv.1; Some (k, kv.2)) (map_to_list values).

(** The two halves of [get], for the statements: the cache phase
    (lines 97-103) and the database phase (lines 104-112), on the
    prefixed key. *)
Definition get_cache_phase (self : backend) (key : string) : prog pyval :=
  if is_set (_cache self)
  then value ← do (cache_get key);
       if is_None value
       then autofill self;; do (cache_get key)
       else Ret value
  else Ret PNone.

Definition get_db_phase (self : backend) (key : string) (value : pyval) : prog pyval :=
  if is_None value then
    try_except_else
      (const ← do (db_get key); Ret (Constance.value const))
      (λ e, match e with
            | OperationalError | ProgrammingError | DoesNotExist => Some (Ret value)
            | _ => None
            end)
      (λ value,
         (if is_set (_cache self) then do (cache_add key value);; Ret tt else Ret tt);;
         Ret value)
  else Ret value.

(** The records of key [k] in a table. *)
Definition records (k : string) (rs : list row) : list row :=
  List.filter (has_key k) rs.

(** ** Two processes on one database and one cache *)

(** A process advances by one external call at a time; the call is
    atomic on the shared world ([queryset.create] runs inside
    [transaction.atomic]).  A finished process does not move. *)
Definition step {A} (p : prog A) (w : world) : prog A * world * list call :=
  match p with
  | Call c k => let '(r, w') := perform c w in (k r, w', [c])
  | _ => (p, w, [])
  end.

Definition finished {A} (p : prog A) : bool :=
  match p with Call _ _ => false | _ => true end.

(** Two processes, what is left of each, the calls each has made and the
    world they share. *)
Record run : Type := Run {
  proc1 : prog unit;
  calls1 : list call;
  proc2 : prog unit;
  calls2 : list call;
  shared : world
}.

(** Two processes under a schedule: [true] lets the first one make its
    next call, [false] the second one. *)
Fixpoint interleave (sched : list bool) (r : run) : run :=
  match sched with
  | [] => r
  | true :: sched' =>
      let '(p, w, t) := step (proc1 r) (shared r) in
      interleave sched' (Run p (calls1 r ++ t) (proc2 r) (calls2 r) w)
  | false :: sched' =>
      let '(p, w, t) := step (proc2 r) (shared r) in
      interleave sched' (Run (proc1 r) (calls1 r) p (calls2 r ++ t) w)
  end.

Definition turns (b : bool) (sched : list bool) : nat :=
  length (List.filter (Bool.eqb b) sched).

(** The pieces of [set] a process can be in the middle of: the part
    after the outer [try] statement (lines 136-148) and the creation
    attempt (lines 128-134), on the prefixed key. *)
Definition set_tail (self : backend) (key : string) (value : pyval) (st : fetched)
    : prog unit :=
  match st with
  | NoOp => Ret tt
  | _ =>
      old_value ← match st with
                  | Found constance =>
                      created ← do (db_save (Row (Constance.key constance) value));
                      post_save self created;;
                      Ret (Constance.value constance)
                  | _ => Ret PNone
                  end;
      (if is_set (_cache self) then do (cache_set key value) else Ret tt);;
      do (signal_send key old_value value)
  end.

Definition set_create (self : backend) (key : string) (value : pyval) : prog fetched :=
  try_except_else (do (db_create key value);; post_save self true)
    (λ e, match e with
          | IntegrityError =>
              Some (constance ← do (db_get key); Ret (Found constance))
          | _ => None
          end)
    (λ _, Ret Created).

(** Where a process running [set] stands: before which call.  From
    [AtReceiver] on, [created] is the variable of line 116. *)
Inductive pc : Type :=
| AtLookup                       (* line 123: queryset.get *)
| AtCreate                       (* line 130: queryset.create *)
| AtRefetch                      (* line 134: queryset.get, after the lost race *)
| AtSave (constance : row)       (* line 139: constance.save *)
| AtReceiver (created : bool) (n : nat) (q : prog unit) (old_value : pyval)
      (* in the receiver of [post_save]: [q] is left of it, at most [n]
         calls; then line 143 *)
| AtSend (created : bool) (old_value : pyval)   (* line 146: config_updated.send *)
| AtEnd (created : bool) (old_value : pyval).

(** The rest of [set self key value] at each of these points. *)
Definition residual (self : backend) (key : string) (value : pyval) (s : pc)
    : prog unit :=
  let pk := add_prefix self key in
  match s with
  | AtLookup => set self key value
  | AtCreate => set_create self pk value ≫= set_tail self pk value
  | AtRefetch =>
      (constance ← do (db_get pk); Ret (Found constance)) ≫= set_tail self pk value
  | AtSave constance => set_tail self pk value (Found constance)
  | AtReceiver _ _ q old_value =>
      old_value ← (q;; Ret old_value);
      (if is_set (_cache self) then do (cache_set pk value) else Ret tt);;
      do (signal_send pk old_value value)
  | AtSend _ old_value => do (signal_send pk old_value value)
  | AtEnd _ _ => Ret tt
  end.

(** An upper bound on the calls still to make. *)
Definition calls_left (s : pc) : nat :=
  match s with
  | AtLookup => 11
  | AtCreate => 10
  | AtRefetch => 9
  | AtSave _ => 8
  | AtReceiver _ n _ _ => n + 2
  | AtSend _ _ => 1
  | AtEnd _ _ => 0
  end.

(** A program that makes at most [n] calls, none of them a database
    write or a signal, and does not raise, whatever the worlds it meets. *)
Fixpoint quiet (n : nat) (p : prog unit) {struct p} : Prop :=
  match p with
  | Ret _ => True
  | Raise _ => False
  | Call c k =>
      is_db_write c = false ∧ is_signal c = false ∧
      match n with
      | 0 => False
      | S n' => ∀ w, quiet n' (k (perform c w).1)
      end
  end.

(** What a writer has done to the record so far. *)
Inductive role : Type := Pre | Creator | Updater.

Definition role_of (s : pc) : role :=
  match s with
  | AtLookup | AtCreate | AtRefetch | AtSave _ => Pre
  | AtReceiver created _ _ _ | AtSend created _ | AtEnd created _ =>
      if created then Creator else Updater
  end.

Definition old_of (s : pc) : pyval :=
  match s with
  | AtReceiver _ _ _ old_value | AtSend _ old_value | AtEnd _ old_value => old_value
  | _ => PNone
  end.

(** The race of the writers of [v1] (at [s1]) and [v2] (at [s2]) on one
    key of an available database.  While neither has written there is no
    record and both are at their lookup or creation; the one whose
    creation went through is the creator, and the record holds its
    value until the other one, who fetches that record, has saved. *)
Definition race_ok (self : backend) (key : string) (v1 v2 : pyval)
    (s1 s2 : pc) (w : world) : Prop :=
  let pk := add_prefix self key in
  let early s := match s with AtLookup | AtCreate => True | _ => False end in
  let fetched_from v s := match s with AtSave c => c = Row pk v | _ => True end in
  db_fault w = None ∧
  match role_of s1, role_of s2 with
  | Pre, Pre => records pk (rows w) = [] ∧ early s1 ∧ early s2
  | Creator, Pre => records pk (rows w) = [Row pk v1] ∧ fetched_from v1 s2
  | Pre, Creator => records pk (rows w) = [Row pk v2] ∧ fetched_from v2 s1
  | Creator, Updater => records pk (rows w) = [Row pk v2] ∧ old_of s2 = v1
  | Updater, Creator => records pk (rows w) = [Row pk v1] ∧ old_of s1 = v2
  | _, _ => False
  end.

(** What the calls [t] of the writer of [value], now at [s], have been. *)
Definition proc_ok (self : backend) (key : string) (value : pyval)
    (s : pc) (t : list call) : Prop :=
  let pk := add_prefix self key in
  let writes := List.filter is_db_write t in
  List.filter is_signal t =
    match s with AtEnd _ old_value => [signal_send pk old_value value] | _ => [] end ∧
  match s with
  | AtLookup | AtCreate => writes = []
  | AtRefetch => writes = [db_create pk value]
  | AtSave _ => writes = [] ∨ writes = [db_create pk value]
  | AtReceiver created _ _ _ | AtSend created _ | AtEnd created _ =>
      if created then writes = [db_create pk value]
      else writes = [db_save (Row pk value)] ∨
           writes = [db_create pk value; db_save (Row pk value)]
  end ∧
  match s with AtReceiver _ n q _ => quiet n q | _ => True end ∧
  (role_of s = Creator → old_of s = PNone).

(** How a race ends when the writer of [vc] created the record and the
    writer of [vu] updated it: one record, with the updater's value; the
    creator made the one [create] and announced its value with no old
    value; the updater made the one [save] -- after a [create] of its
    own when it had found no record at its lookup, the lost race -- and
    announced its value with the creator's as the old value. *)
Definition race_won (pk : string) (vc vu : pyval) (tc tu : list call) (w : world)
    : Prop :=
  records pk (rows w) = [Row pk vu] ∧
  List.filter is_db_write tc = [db_create pk vc] ∧
  List.filter is_signal tc = [signal_send pk PNone vc] ∧
  (List.filter is_db_write tu = [db_save (Row pk vu)] ∨
   List.filter is_db_write tu = [db_create pk vu; db_save (Row pk vu)]) ∧
  List.filter is_signal tu = [signal_send pk vc vu].

(** ** Example configurations and worlds *)

(** A site with the default (empty) prefix, a one-day autofill window, a
    cache and two registered keys. *)
Definition site : backend := Backend "" (Some 86400%Z) (Some "default") ["A"; "B"].

(** The same site with [DATABASE_PREFIX = "constance:"]. *)
Definition prefixed_site : backend :=
  Backend "constance:" (Some 86400%Z) (Some "default") ["A"; "B"].

(** A site whose registry knows A only. *)
Definition small_site : backend := Backend "" (Some 86400%Z) (Some "default") ["A"].

(** Nothing cached, empty table. *)
Definition fresh : world := World ∅ None [].

(** The example of the specification: A is cached, A and B are stored. *)
Definition partly_cached : world :=
  World {[ "A" := PInt 1 ]} None [Row "A" (PInt 1); Row "B" (PInt 2)].

(** A warmed cache. *)
Definition warm : world :=
  World {[ "autofilled" := PInt 1; "A" := PInt 1 ]} None [Row "A" (PInt 1)].

(** A cached for A while the database is not available. *)
Definition cached_but_down : world :=
  World {[ "A" := PInt 1 ]} (Some NotReadyOperational) [].

(** The database is not available and nothing is cached. *)
Definition down : world := World ∅ (Some NotReadyOperational) [].

(** ** The constructor *)

(** What [caches[alias]] is an instance of: Django's local-memory backend
    (or a subclass of it), or a cache shared between processes. *)
Inductive cache_class : Type := LocMemCache | CrossProcessCache.

(** Modelled from the spec: the settings module (constance/settings.py)
    and the model's registration are outside the file.  Following section 6
    of the specification, the knobs are the key prefix, the autofill
    expiry, the cache backend selection (none, or the alias of a
    configured cache) and the registry; [app_config] tells whether the
    model's application is installed ([_meta.app_config is not None]) and
    [caches] is Django's table of configured caches. *)
Record settings : Type := Settings {
  DATABASE_PREFIX : string;
  DATABASE_CACHE_AUTOFILL_TIMEOUT : option Z;
  DATABASE_CACHE_BACKEND : option string;
  REGISTRY : list string;
  app_config : bool;
  caches : gmap string cache_class
}.

(** Why a construction fails: the two [ImproperlyConfigured] of the file,
    and Django's error for an alias that [caches] does not know. *)
Inductive init_error : Type :=
| AppNotInstalled
| LocalMemoryCache (alias : string)
| InvalidCacheBackendError (alias : string).

(** What a successful construction leaves: the instance, the call
    [self.autofill()] of line 50 and the receiver connected to
    [post_save] on line 52. *)
Record constructed : Type := Constructed {
  instance : backend;
  startup : prog unit;
  post_save_receiver : bool → prog unit
}.

(** Truth value of the setting [DATABASE_CACHE_BACKEND]: [None] and the
    empty string are false. *)
Definition backend_named (o : option string) : option string :=
  match o with
  | Some alias => if String.eqb alias "" then None else Some alias
  | None => None
  end.

Definition __init__ (s : settings) : init_error + constructed :=
  if negb (app_config s) then inl AppNotInstalled else
  let built _cache :=
    let self := Backend (DATABASE_PREFIX s) (DATABASE_CACHE_AUTOFILL_TIMEOUT s)
                        _cache (REGISTRY s) in
    inr (Constructed self (autofill self) (clear self)) in
  match backend_named (DATABASE_CACHE_BACKEND s) with
  | Some alias =>
      match caches s !! alias with
      | None => inl (InvalidCacheBackendError alias)
      | Some LocMemCache => inl (LocalMemoryCache alias)
      | Some CrossProcessCache => built (Some alias)
      end
  | None => built None
  end.

(** ** Further vocabulary *)

Definition is_cache_call (c : call) : bool :=
  match c with
  | cache_get _ | cache_get_many _ | cache_set_many _ _ | cache_set _ _
  | cache_add _ _ | cache_delete_many _ => true
  | _ => false
  end.

(** The uniqueness constraint of the [key] column. *)
Definition unique_keys (rs : list row) : Prop :=
  NoDup (map Constance.key rs).

(** A caller's requests to a backend, and their service one after the
    other (results dropped). *)
Inductive request : Type :=
| ReqGet (key : string)
| ReqMget (keys : list string) (fallback : bool)
| ReqSet (key : string) (value : pyval)
| ReqSaved (created : bool)
| ReqAutofill.

Definition serve (self : backend) (r : request) : prog unit :=
  match r with
  | ReqGet key => get self key;; Ret tt
  | ReqMget keys fallback => mget self keys fallback;; Ret tt
  | ReqSet key value => set self key value
  | ReqSaved created => clear self created
  | ReqAutofill => autofill self
  end.

Fixpoint serve_all (self : backend) (rs : list request) : prog unit :=
  match rs with
  | [] => Ret tt
  | r :: rs' => serve self r;; serve_all self rs'
  end.

(** Example settings: the application installed, two caches configured. *)
Definition example_settings (backend : option string) : settings :=
  Settings "" (Some 86400%Z) backend ["A"; "B"] true
           {[ "default" := CrossProcessCache; "local" := LocMemCache ]}.

(** A table with a record for A and for B, nothing cached. *)
Definition stored_only : world :=
  World ∅ None [Row "A" (PInt 1); Row "B" (PInt 2)].

(** A stale entry for A and a warm sentinel. *)
Definition stale : world :=
  World {[ "autofilled" := PInt 1; "A" := PInt 0 ]} None [Row "A" (PInt 1)].

(* ================================================================ *)
(** * Properties *)

(** ** Running programs *)

Lemma exec_bind {A B} (p : prog A) (f : A → prog B) w :
  exec (p ≫= f) w = and_then (exec p w) (λ a w', exec (f a) w').
Proof.
  revert w. induction p as [a|e|c k IH]; intros w.
  - unfold and_then. simpl. by destruct (exec (f a) w).
  - reflexivity.
  - change (Call c k ≫= f) with (Call c (λ r, k r ≫= f)). simpl.
    destruct (perform c w) as [r w']. rewrite IH.
    unfold and_then. simpl. by destruct (res (exec (k r) w')).
Qed.

Lemma exec_do (c : call) w :
  exec (do c) w = Outcome (perform c w).1 (perform c w).2 [c].
Proof.
  unfold do. simpl. destruct (perform c w) as [[x|e] w']; reflexivity.
Qed.

Lemma exec_try {A B} (body : prog A) handler (orelse : A → prog B) w :
  exec (try_except_else body handler orelse) w =
  let o := exec body w in
  match res o with
  | Ok a =>
      let o' := exec (orelse a) (final o) in
      Outcome (res o') (final o') (trace o ++ trace o')
  | Err e =>
      match handler e with
      | Some h =>
          let o' := exec h (final o) in
          Outcome (res o') (final o') (trace o ++ trace o')
      | None => Outcome (Err e) (final o) (trace o)
      end
  end.
Proof.
  revert w. induction body as [a|e|c k IH]; intros w; simpl.
  - by destruct (exec (orelse a) w).
  - destruct (handler e) as [h|]; [|done]. by destruct (exec h w).
  - destruct (perform c w) as [r w']. rewrite IH. simpl.
    destruct (res (exec (k r) w')); [done|].
    by destruct (handler e).
Qed.

Ltac exec_call :=
  match goal with
  | |- context [@exec ?A (do ?c) ?w] =>
      change (@exec A (do c) w) with (@exec (reply c) (do c) w);
      rewrite (exec_do c w)
  end.

(** [exec] is the run of [step]s of one process on its own. *)
Lemma exec_step {A} (p : prog A) w :
  let '(p', w', t) := step p w in
  res (exec p w) = res (exec p' w') ∧
  final (exec p w) = final (exec p' w') ∧
  trace (exec p w) = t ++ trace (exec p' w').
Proof. destruct p as [a|e|c k]; [done..|]. simpl. by destruct (perform c w). Qed.

Lemma count_app P t1 t2 : count P (t1 ++ t2) = count P t1 + count P t2.
Proof. unfold count. by rewrite List.filter_app, length_app. Qed.

Lemma count_cons P c t : count P (c :: t) = (if P c then 1 else 0) + count P t.
Proof. unfold count. simpl. by destruct (P c). Qed.

Lemma count_nil P : count P [] = 0.
Proof. reflexivity. Qed.

Ltac count_calls :=
  repeat first [rewrite count_app | rewrite count_cons | rewrite count_nil];
  cbn [is_db_call is_signal is_cache_write is_enter_autofill
       is_get_many is_db_write].

Ltac filter_calls :=
  repeat first
    [ rewrite List.filter_app
    | progress (cbn [List.filter is_db_call is_signal is_cache_write
                     is_enter_autofill is_get_many is_db_write]) ];
  rewrite ?app_nil_r.

(** ** Dictionaries of prefixed keys *)

Lemma add_prefix_inj self k1 k2 :
  add_prefix self k1 = add_prefix self k2 → k1 = k2.
Proof. unfold add_prefix. apply (inj (String.app _)). Qed.

Lemma prefixed_fold_keep self l (d : gmap string string) k :
  d !! add_prefix self k = Some k →
  foldl (λ d key, <[add_prefix self key := key]> d) d l !! add_prefix self k = Some k.
Proof.
  revert d. induction l as [|x l IH]; intros d Hd; simpl; [done|].
  apply IH. destruct (decide (add_prefix self x = add_prefix self k)) as [E|N].
  - rewrite E. apply add_prefix_inj in E. subst x. apply lookup_insert_eq.
  - by rewrite lookup_insert_ne.
Qed.

Lemma prefixed_fold_inv self l (d : gmap string string) pk k :
  foldl (λ d key, <[add_prefix self key := key]> d) d l !! pk = Some k →
  (k ∈ l ∧ pk = add_prefix self k) ∨ d !! pk = Some k.
Proof.
  revert d. induction l as [|x l IH]; intros d H; simpl in H; [by right|].
  apply IH in H as [[Hin ->]|H].
  - left. split; [by right|done].
  - destruct (decide (add_prefix self x = pk)) as [<-|N].
    + rewrite lookup_insert_eq in H. injection H as ->. left. split; [by left|done].
    + rewrite lookup_insert_ne in H by done. by right.
Qed.

Lemma prefixed_keys_elem self l k :
  k ∈ l → prefixed_keys self l !! add_prefix self k = Some k.
Proof.
  unfold prefixed_keys. generalize (∅ : gmap string string).
  induction l as [|x l IH]; intros d Hin; [by apply elem_of_nil in Hin|].
  simpl. apply elem_of_cons in Hin as [->|Hin].
  - apply prefixed_fold_keep, lookup_insert_eq.
  - by apply IH.
Qed.

Lemma prefixed_keys_inv self l pk k :
  prefixed_keys self l !! pk = Some k → k ∈ l ∧ pk = add_prefix self k.
Proof.
  intros H. apply prefixed_fold_inv in H as [H|H]; [done|].
  by rewrite lookup_empty in H.
Qed.

(** ** The table *)

Lemma records_nil_existsb k rs : records k rs = [] ↔ existsb (has_key k) rs = false.
Proof.
  unfold records. induction rs as [|r rs IH]; [done|].
  simpl. destruct (has_key k r); [done|]. simpl. exact IH.
Qed.

Lemma records_key k rs r : r ∈ records k rs → Constance.key r = k.
Proof.
  unfold records. intros H. apply list_elem_of_In, filter_In in H as [_ H].
  unfold has_key in H. by apply String.eqb_eq in H.
Qed.

Lemma records_singleton_value pk v rs x :
  records pk rs = [Row pk v] → Row pk x ∈ rs → x = v.
Proof.
  intros Hrec Hin.
  assert (Row pk x ∈ records pk rs) as H.
  { unfold records. apply list_elem_of_In, filter_In. split; [by apply list_elem_of_In|].
    unfold has_key. simpl. apply String.eqb_refl. }
  rewrite Hrec in H. apply list_elem_of_singleton in H. by injection H.
Qed.

Lemma records_nil_absent pk rs x : records pk rs = [] → Row pk x ∉ rs.
Proof.
  intros Hrec Hin.
  assert (Row pk x ∈ records pk rs) as H.
  { unfold records. apply list_elem_of_In, filter_In. split; [by apply list_elem_of_In|].
    unfold has_key. simpl. apply String.eqb_refl. }
  rewrite Hrec in H. by apply elem_of_nil in H.
Qed.

Lemma records_after_create pk v rs :
  records pk rs = [] → records pk (rs ++ [Row pk v]) = [Row pk v].
Proof.
  unfold records. intros H. rewrite List.filter_app, H. simpl.
  unfold has_key. simpl. by rewrite String.eqb_refl.
Qed.

Lemma records_after_update pk v rs r :
  records pk rs = [r] → records pk (update_rows (Row pk v) rs) = [Row pk v].
Proof.
  unfold records, update_rows. revert r.
  assert (∀ l, List.filter (has_key pk)
                 (map (λ r', if has_key (Constance.key (Row pk v)) r'
                             then Row pk v else r') l)
               = map (λ _, Row pk v) (List.filter (has_key pk) l)) as H.
  { induction l as [|x l IH]; [done|]. cbn [map List.filter Constance.key].
    destruct (has_key pk x) eqn:E.
    - assert (has_key pk (Row pk v) = true) as ->
        by (unfold has_key; simpl; apply String.eqb_refl).
      cbn [map]. f_equal. exact IH.
    - rewrite E. exact IH. }
  intros r Hr. by rewrite H, Hr.
Qed.

(** ** The database part of [mget] *)

Lemma exec_subscript keys k w :
  exec (subscript keys k) w =
  Outcome (match keys !! k with Some v => Ok v | None => Err KeyError end) w [].
Proof. unfold subscript. by destruct (keys !! k). Qed.

Lemma exec_yield_items keys items w :
  Forall (λ kv, is_Some (keys !! kv.1)) items →
  exec (yield_items keys items) w =
  Outcome (Ok (omap (λ kv, k ← keys !! kv.1; Some (k, kv.2)) items)) w [].
Proof.
  induction 1 as [|[k v] items [k' Hk] _ IH]; [done|].
  cbn [yield_items]. rewrite exec_bind, exec_subscript.
  simpl in Hk. unfold and_then. cbn [res final trace].
  rewrite Hk. cbn [res final trace]. rewrite exec_bind, IH.
  simpl. by rewrite Hk.
Qed.

Lemma exec_yield_rows keys (rs : list row) w :
  exec (yield_items keys
          (map (λ const, (Constance.key const, Constance.value const))
               (filter (λ r, Constance.key r ∈ dom keys) rs))) w =
  Outcome (Ok (stored_pairs keys rs)) w [].
Proof.
  rewrite exec_yield_items.
  - do 2 f_equal. unfold stored_pairs.
    induction rs as [|r rs IH]; [done|].
    rewrite filter_cons. destruct (decide (Constance.key r ∈ dom keys)) as [Hin|Hout].
    + apply elem_of_dom in Hin as [k Hk]. cbn [map omap list_omap]. cbn [fst snd].
      rewrite Hk. cbn [mbind option_bind]. f_equal. apply IH.
    + apply not_elem_of_dom in Hout. cbn [omap list_omap]. rewrite Hout.
      cbn [mbind option_bind]. apply IH.
  - induction rs as [|r rs IH]; [constructor|].
    rewrite filter_cons. destruct (decide (Constance.key r ∈ dom keys)) as [Hin|Hout];
      [|done].
    simpl. constructor; [|done]. by apply elem_of_dom.
Qed.

Lemma exec_mget_stored keys w :
  exec (mget_stored keys) w =
  Outcome (Ok (match db_fault w with
               | Some _ => []
               | None => stored_pairs keys (rows w)
               end)) w [db_filter (dom keys)].
Proof.
  unfold mget_stored. rewrite exec_try, exec_bind. exec_call.
  unfold and_then. simpl.
  destruct (db_fault w) as [[]|]; simpl; try done.
  by rewrite exec_yield_rows.
Qed.

Lemma elem_of_stored_pairs keys rs k v :
  (k, v) ∈ stored_pairs keys rs ↔
  ∃ r, r ∈ rs ∧ keys !! Constance.key r = Some k ∧ Constance.value r = v.
Proof.
  unfold stored_pairs. rewrite list_elem_of_omap. split.
  - intros (r & Hr & H). exists r. split; [done|].
    destruct (keys !! Constance.key r); simpl in H; [|done].
    by injection H as -> ->.
  - intros (r & Hr & Hk & Hv). exists r. split; [done|]. rewrite Hk. simpl. by rewrite Hv.
Qed.

(** ** [autofill] *)

(** On the path [fallback=False], [mget] does not depend on what
    [self.autofill()] is: tying [autofill] to [mget_ (Ret tt)] is the
    method as written. *)
Lemma mget_no_fallback a1 a2 self keys :
  mget_ a1 self keys false = mget_ a2 self keys false.
Proof. unfold mget_. by rewrite andb_false_r. Qed.

Lemma autofill_unfold self :
  autofill self = autofill_ (mget self (CONFIG self) false) self.
Proof. unfold autofill, mget. by rewrite (mget_no_fallback (Ret tt) (autofill self)). Qed.

Lemma exec_scan a self w :
  exec (mget_ a self (CONFIG self) false) w =
  Outcome (Ok (scan_pairs self w)) w (scan_trace self).
Proof.
  unfold mget_, scan_pairs, scan_trace. rewrite andb_false_r.
  destruct (CONFIG self) as [|k l]; [done|].
  rewrite bool_decide_eq_false_2 by done. by rewrite exec_mget_stored.
Qed.

(** The three ways an [autofill] call can go. *)
Lemma exec_autofill_disabled self w :
  timeout_set (_autofill_timeout self) = false ∨ _cache self = None →
  exec (autofill self) w = Outcome (Ok tt) w [enter_autofill].
Proof.
  intros H. unfold autofill, autofill_. rewrite exec_bind. exec_call.
  unfold and_then. simpl.
  destruct H as [-> | ->]; [done|]. by rewrite orb_true_r.
Qed.

Lemma exec_autofill_warm self w :
  timeout_set (_autofill_timeout self) = true →
  is_set (_cache self) = true →
  truthy (cached w (full_cachekey self)) = true →
  exec (autofill self) w =
  Outcome (Ok tt) w [enter_autofill; cache_get (full_cachekey self)].
Proof.
  intros Ht Hc Hm. unfold autofill, autofill_. rewrite exec_bind. exec_call.
  unfold and_then. simpl. rewrite Ht, Hc. simpl.
  fold (full_cachekey self). fold (cached w (full_cachekey self)). by rewrite Hm.
Qed.

Lemma exec_autofill_cold self w :
  timeout_set (_autofill_timeout self) = true →
  is_set (_cache self) = true →
  truthy (cached w (full_cachekey self)) = false →
  exec (autofill self) w =
  let batch := autofill_batch self (scan_pairs self w) in
  Outcome (Ok tt) (set_cache w (batch ∪ cache w))
    ([enter_autofill; cache_get (full_cachekey self)] ++ scan_trace self
       ++ [cache_set_many batch (_autofill_timeout self)]).
Proof.
  intros Ht Hc Hm. unfold autofill, autofill_. rewrite exec_bind. exec_call.
  unfold and_then. simpl. rewrite Ht, Hc. simpl.
  fold (full_cachekey self). fold (cached w (full_cachekey self)). rewrite Hm.
  rewrite exec_bind, exec_scan. unfold and_then. simpl.
  reflexivity.
Qed.

(** Case analysis on an [autofill] call. *)
Lemma autofill_cases self w :
  exec (autofill self) w = Outcome (Ok tt) w [enter_autofill] ∨
  (truthy (cached w (full_cachekey self)) = true ∧
   exec (autofill self) w =
   Outcome (Ok tt) w [enter_autofill; cache_get (full_cachekey self)]) ∨
  (timeout_set (_autofill_timeout self) = true ∧ is_set (_cache self) = true ∧
   truthy (cached w (full_cachekey self)) = false ∧
   exec (autofill self) w =
   let batch := autofill_batch self (scan_pairs self w) in
   Outcome (Ok tt) (set_cache w (batch ∪ cache w))
     ([enter_autofill; cache_get (full_cachekey self)] ++ scan_trace self
        ++ [cache_set_many batch (_autofill_timeout self)])).
Proof.
  destruct (timeout_set (_autofill_timeout self)) eqn:Ht;
    [|left; apply exec_autofill_disabled; by left].
  destruct (_cache self) as [c|] eqn:Hc;
    [|left; apply exec_autofill_disabled; by right].
  assert (is_set (_cache self) = true) as Hs by by rewrite Hc.
  destruct (truthy (cached w (full_cachekey self))) eqn:Hm.
  - right. left. split; [done|]. by apply exec_autofill_warm.
  - right. right. repeat split; try done. by apply exec_autofill_cold.
Qed.

(** [autofill] never raises, leaves the database alone, and is entered
    once per call. *)
Lemma autofill_total self w :
  let o := exec (autofill self) w in
  res o = Ok tt ∧ rows (final o) = rows w ∧ db_fault (final o) = db_fault w ∧
  count is_enter_autofill (trace o) = 1 ∧ count is_get_many (trace o) = 0 ∧
  count is_db_write (trace o) = 0 ∧ count is_signal (trace o) = 0 ∧
  count is_db_call (trace o) ≤ 1.
Proof.
  destruct (autofill_cases self w) as [E|[[_ E]|(_ & _ & _ & E)]];
    rewrite E; cbn [res final trace]; try (by repeat split; unfold count; simpl; lia).
  unfold scan_trace. destruct (CONFIG self); repeat split; unfold count; simpl; lia.
Qed.

Lemma autofill_batch_inv self pairs pk v :
  autofill_batch self pairs !! pk = Some v →
  (pk = full_cachekey self ∧ v = PInt 1) ∨
  ∃ k, (k, v) ∈ pairs ∧ pk = add_prefix self k.
Proof.
  unfold autofill_batch.
  cut (∀ d : gmap string pyval,
         foldl (λ d kv, <[add_prefix self kv.1 := kv.2]> d) d pairs !! pk = Some v →
         d !! pk = Some v ∨ ∃ k, (k, v) ∈ pairs ∧ pk = add_prefix self k).
  { intros Hcut H. apply Hcut in H as [H|H]; [|by right].
    apply lookup_singleton_Some in H as [<- <-]. by left. }
  induction pairs as [|[k x] pairs IH]; intros d H; simpl in H; [by left|].
  apply IH in H as [H|(k' & Hin & ->)].
  - destruct (decide (add_prefix self k = pk)) as [<-|N].
    + rewrite lookup_insert_eq in H. injection H as ->.
      right. exists k. split; [by left|done].
    + rewrite lookup_insert_ne in H by done. by left.
  - right. exists k'. split; [by right|done].
Qed.

Lemma autofill_batch_sentinel_some self pairs :
  is_Some (autofill_batch self pairs !! full_cachekey self).
Proof.
  unfold autofill_batch.
  cut (∀ d : gmap string pyval, is_Some (d !! full_cachekey self) →
         is_Some (foldl (λ d kv, <[add_prefix self kv.1 := kv.2]> d) d pairs
                    !! full_cachekey self)).
  { intros Hcut. apply Hcut. rewrite lookup_singleton_eq. by eexists. }
  induction pairs as [|[k x] pairs IH]; intros d Hd; simpl; [done|].
  apply IH. destruct (decide (add_prefix self k = full_cachekey self)) as [->|N].
  - rewrite lookup_insert_eq. by eexists.
  - by rewrite lookup_insert_ne.
Qed.

Lemma autofill_batch_sentinel self pairs :
  (∀ v, (_autofill_cachekey, v) ∉ pairs) →
  autofill_batch self pairs !! full_cachekey self = Some (PInt 1).
Proof.
  intros Hfresh.
  destruct (autofill_batch_sentinel_some self pairs) as [v Hv].
  rewrite Hv. f_equal.
  apply autofill_batch_inv in Hv as [[_ ->]|(k & Hin & E)]; [done|].
  apply add_prefix_inj in E. subst k. by apply Hfresh in Hin.
Qed.

Lemma scan_pairs_unavailable self w f : db_fault w = Some f → scan_pairs self w = [].
Proof. unfold scan_pairs. intros ->. by destruct (CONFIG self). Qed.

Lemma elem_of_scan_pairs self w k v :
  (k, v) ∈ scan_pairs self w →
  k ∈ CONFIG self ∧ Row (add_prefix self k) v ∈ rows w.
Proof.
  unfold scan_pairs. destruct (CONFIG self) as [|k0 l] eqn:E;
    [intros H; by apply elem_of_nil in H|].
  destruct (db_fault w); [intros H; by apply elem_of_nil in H|].
  rewrite <- E. intros H. apply elem_of_stored_pairs in H as (r & Hr & Hk & Hv).
  apply prefixed_keys_inv in Hk as [Hin Hk]. split; [done|].
  destruct r as [rk rv]. simpl in *. by subst.
Qed.

(** A key that is not the sentinel's, is not cached (or cached as None)
    and whose records all hold None stays so across [autofill]. *)
Lemma autofill_keeps_none self w pk :
  pk ≠ full_cachekey self →
  cached w pk = PNone →
  (∀ v, Row pk v ∈ rows w → v = PNone) →
  cached (final (exec (autofill self) w)) pk = PNone.
Proof.
  intros Hpk Hc Hrows.
  destruct (autofill_cases self w) as [E|[[_ E]|(_ & _ & _ & E)]];
    rewrite E; cbn [final]; try done.
  unfold cached. simpl.
  destruct (autofill_batch self (scan_pairs self w) !! pk) as [v|] eqn:Hb.
  - rewrite (lookup_union_Some_l _ _ _ _ Hb). simpl.
    apply autofill_batch_inv in Hb as [[? _]|(k & Hin & ->)]; [done|].
    apply elem_of_scan_pairs in Hin as [_ Hin]. by apply Hrows.
  - rewrite lookup_union_r by done. exact Hc.
Qed.

(** ** [mget] *)

Lemma exec_hits keys ks w' w :
  ks = dom keys →
  exec (yield_items keys (map_to_list (get_many_reply ks w'))) w =
  Outcome (Ok (hit_pairs keys (get_many_reply ks w'))) w [].
Proof.
  intros ->. rewrite exec_yield_items; [done|].
  apply Forall_forall. intros [k v] Hin.
  apply elem_of_map_to_list in Hin. unfold get_many_reply in Hin.
  apply map_lookup_filter_Some in Hin as [_ Hin]. by apply elem_of_dom.
Qed.

Lemma exec_mget_cached self keys w :
  is_set (_cache self) = true → keys ≠ [] →
  exec (mget self keys true) w =
  let kd := prefixed_keys self keys in
  let miss := negb (size (get_many_reply (dom kd) w) =? size kd) in
  let w1 := if miss then final (exec (autofill self) w) else w in
  let values := get_many_reply (dom kd) w1 in
  let pending := filter (λ kv, values !! kv.1 = None) kd in
  Outcome
    (Ok (if bool_decide (pending = ∅) then hit_pairs kd values
         else hit_pairs kd values ++
              match db_fault w1 with
              | Some _ => []
              | None => stored_pairs pending (rows w1)
              end))
    w1
    (cache_get_many (dom kd)
       :: (if miss then trace (exec (autofill self) w) ++ [cache_get_many (dom kd)]
           else [])
       ++ (if bool_decide (pending = ∅) then [] else [db_filter (dom pending)])).
Proof.
  intros Hc Hk. unfold mget, mget_.
  rewrite bool_decide_eq_false_2 by done. rewrite Hc. cbn [andb].
  set (kd := prefixed_keys self keys). cbv zeta.
  rewrite exec_bind. exec_call. unfold and_then.
  cbn [res final trace perform fst snd].
  fold (get_many_reply (dom kd) w).
  rewrite exec_bind.
  set (miss := negb (_ =? size kd)). destruct miss.
  - cbv iota. rewrite exec_bind. destruct (autofill_total self w) as (Hr & _).
    unfold and_then. rewrite Hr. cbn [res final trace]. exec_call.
    cbn [res final trace perform fst snd].
    set (w1 := final (exec (autofill self) w)). fold (get_many_reply (dom kd) w1).
    rewrite exec_bind, exec_hits by done. unfold and_then. cbn [res final trace].
    destruct (bool_decide (_ = ∅)); cbv iota.
    + cbn [exec res final trace]. f_equal; by rewrite ?app_nil_r.
    + rewrite exec_bind, exec_mget_stored. unfold and_then.
      cbn [exec res final trace]. f_equal; by rewrite ?app_nil_r.
  - cbv iota. unfold and_then. cbn [exec res final trace].
    rewrite exec_bind, exec_hits by done. unfold and_then. cbn [res final trace].
    destruct (bool_decide (_ = ∅)); cbv iota.
    + done.
    + rewrite exec_bind, exec_mget_stored. unfold and_then.
      by cbn [exec res final trace].
Qed.

Lemma exec_mget_uncached self keys fallback w :
  is_set (_cache self) && fallback = false → keys ≠ [] →
  exec (mget self keys fallback) w =
  let kd := prefixed_keys self keys in
  Outcome (Ok (match db_fault w with
               | Some _ => []
               | None => stored_pairs kd (rows w)
               end)) w [db_filter (dom kd)].
Proof.
  intros Hc Hk. unfold mget, mget_.
  rewrite bool_decide_eq_false_2 by done. rewrite Hc.
  by rewrite exec_mget_stored.
Qed.

Lemma exec_mget_nil self fallback w :
  exec (mget self [] fallback) w = Outcome (Ok []) w [].
Proof. reflexivity. Qed.

Lemma elem_of_hit_pairs keys values k v :
  (k, v) ∈ hit_pairs keys values ↔
  ∃ pk, values !! pk = Some v ∧ keys !! pk = Some k.
Proof.
  unfold hit_pairs. rewrite list_elem_of_omap. split.
  - intros ([pk x] & Hin & H). apply elem_of_map_to_list in Hin.
    exists pk. simpl in H. destruct (keys !! pk); simpl in H; [|done].
    by injection H as -> ->.
  - intros (pk & Hv & Hk). exists (pk, v). split; [by apply elem_of_map_to_list|].
    simpl. by rewrite Hk.
Qed.

Lemma get_many_reply_lookup ks w k :
  k ∈ ks → get_many_reply ks w !! k = cache w !! k.
Proof.
  intros Hk. unfold get_many_reply.
  destruct (cache w !! k) as [v|] eqn:E.
  - by apply map_lookup_filter_Some.
  - apply map_lookup_filter_None. left. done.
Qed.

(** The example of the specification: A comes from the cache, B from
    the database, with one [autofill] in between. *)
Example mget_partly_cached :
  let o := exec (mget small_site ["A"; "B"] true) partly_cached in
  res o = Ok [("A", PInt 1); ("B", PInt 2)] ∧
  count is_get_many (trace o) = 2 ∧ count is_enter_autofill (trace o) = 1 ∧
  List.filter is_db_call (trace o) =
    [db_filter (dom (prefixed_keys small_site ["A"]));
     db_filter {[ "B" ]}].
Proof. vm_compute. done. Qed.

(** ** [get] *)

Lemma get_phases self key :
  get self key =
  get_cache_phase self (add_prefix self key) ≫= get_db_phase self (add_prefix self key).
Proof. reflexivity. Qed.

Lemma exec_get_cache_phase self pk w :
  exec (get_cache_phase self pk) w =
  if is_set (_cache self) then
    if is_None (cached w pk) then
      let o := exec (autofill self) w in
      Outcome (Ok (cached (final o) pk)) (final o)
              (cache_get pk :: trace o ++ [cache_get pk])
    else Outcome (Ok (cached w pk)) w [cache_get pk]
  else Outcome (Ok PNone) w [].
Proof.
  unfold get_cache_phase. destruct (is_set (_cache self)); [|done].
  rewrite exec_bind. exec_call. unfold and_then.
  cbn [res final trace perform fst snd]. fold (cached w pk).
  destruct (is_None (cached w pk)); [|done].
  rewrite exec_bind. destruct (autofill_total self w) as (Hr & _).
  unfold and_then. rewrite Hr. cbn [res final trace]. exec_call.
  by cbn [res final trace perform fst snd app].
Qed.

Lemma exec_get_db_phase self pk v w :
  exec (get_db_phase self pk v) w =
  if is_None v then
    match db_fault w with
    | Some _ => Outcome (Ok v) w [db_get pk]
    | None =>
        match records pk (rows w) with
        | [] => Outcome (Ok v) w [db_get pk]
        | [r] =>
            if is_set (_cache self) then
              Outcome (Ok (Constance.value r))
                      (perform (cache_add pk (Constance.value r)) w).2
                      [db_get pk; cache_add pk (Constance.value r)]
            else Outcome (Ok (Constance.value r)) w [db_get pk]
        | _ => Outcome (Err MultipleObjectsReturned) w [db_get pk]
        end
    end
  else Outcome (Ok v) w [].
Proof.
  unfold get_db_phase. destruct (is_None v); [|done].
  rewrite exec_try, exec_bind. exec_call. unfold and_then, records.
  cbn [res final trace perform fst snd].
  destruct (db_fault w) as [[]|]; [done..|].
  destruct (List.filter (has_key pk) (rows w)) as [|r [|r' l]]; [done| |done].
  cbn [res final trace fst snd exec].
  destruct (is_set (_cache self)); [|done].
  rewrite exec_bind, exec_bind. exec_call. unfold and_then.
  cbn [perform]. by destruct (cache w !! pk).
Qed.

(** [get] of a key that the cache does not resolve and whose record, if
    any, holds None. *)
Lemma exec_get_unresolved self key w :
  key ≠ _autofill_cachekey →
  cached w (add_prefix self key) = PNone →
  records (add_prefix self key) (rows w) = [] ∨
  records (add_prefix self key) (rows w) = [Row (add_prefix self key) PNone] →
  let o := exec (get self key) w in
  let pk := add_prefix self key in
  res o = Ok PNone ∧
  List.filter is_db_call (trace o) =
    (if is_set (_cache self)
     then List.filter is_db_call (trace (exec (autofill self) w)) else [])
    ++ [db_get pk] ∧
  count is_enter_autofill (trace o) = (if is_set (_cache self) then 1 else 0) ∧
  cached (final o) pk = PNone ∧ rows (final o) = rows w.
Proof.
  intros Hkey Hc Hrec. cbv zeta.
  assert (add_prefix self key ≠ full_cachekey self) as Hpk.
  { intros E. by apply add_prefix_inj in E. }
  assert (∀ v, Row (add_prefix self key) v ∈ rows w → v = PNone) as Hrows.
  { intros v Hv. destruct Hrec as [Hrec|Hrec].
    - by apply records_nil_absent with (x := v) in Hrec.
    - by apply records_singleton_value with (x := v) in Hrec. }
  rewrite get_phases, exec_bind, exec_get_cache_phase. unfold and_then.
  pose proof (autofill_keeps_none self w _ Hpk Hc Hrows) as Hkeep.
  destruct (autofill_total self w) as (_ & Hr & Hfa & Hen & _).
  destruct (is_set (_cache self)) eqn:Hcache.
  - rewrite Hc. cbn [is_None]. cbv zeta. cbn [res final trace].
    rewrite Hkeep, exec_get_db_phase. cbn [is_None]. rewrite Hfa, Hr, Hcache.
    assert (List.filter is_db_call
              ((cache_get (add_prefix self key)
                  :: trace (exec (autofill self) w) ++ [cache_get (add_prefix self key)])
                 ++ [db_get (add_prefix self key)])
            = List.filter is_db_call (trace (exec (autofill self) w))
                ++ [db_get (add_prefix self key)]) as Hdb by by filter_calls.
    assert (count is_enter_autofill
              ((cache_get (add_prefix self key)
                  :: trace (exec (autofill self) w) ++ [cache_get (add_prefix self key)])
                 ++ [db_get (add_prefix self key)]) = 1) as Hcnt
      by (count_calls; rewrite Hen; lia).
    destruct (db_fault w) as [f|].
    { cbn [res final trace]. by repeat (split; [done|]). }
    destruct Hrec as [-> | ->]; cbn [res final trace Constance.value].
    + by repeat (split; [done|]).
    + split; [done|]. split; [by filter_calls|]. split; [|split].
      * count_calls. rewrite Hen. lia.
      * unfold cached in *. cbn [perform].
        destruct (cache (final (exec (autofill self) w)) !! add_prefix self key) eqn:E;
          cbn [snd]; [by rewrite E|].
        cbn [cache set_cache]. by rewrite lookup_insert_eq.
      * cbn [perform].
        by destruct (cache (final (exec (autofill self) w)) !! add_prefix self key).
  - cbn [res final trace]. rewrite exec_get_db_phase. cbn [is_None].
    rewrite Hcache. destruct (db_fault w) as [f|]; [done|].
    destruct Hrec as [-> | ->]; cbn [res final trace Constance.value]; done.
Qed.

(** ** [set] *)

(** ** [clear] and the receiver of [post_save] *)

Lemma clear_frame self created w :
  let o := exec (clear self created) w in
  res o = Ok tt ∧ rows (final o) = rows w ∧ db_fault (final o) = db_fault w ∧
  count is_db_write (trace o) = 0 ∧ count is_signal (trace o) = 0 ∧
  (is_set (_cache self) = false → o = Outcome (Ok tt) w []).
Proof.
  cbv zeta. unfold clear.
  destruct (is_set (_cache self)); [destruct created|]; cbn [andb negb];
    [by cbn [exec res final trace]| |by cbn [exec res final trace]].
  rewrite exec_bind. exec_call. unfold and_then. cbn [res final trace perform fst snd].
  match goal with |- context [exec (autofill self) ?x] =>
    destruct (autofill_total self x) as (Hres & Hr & Hfa & _ & _ & Hw & Hs & _) end.
  rewrite Hres. cbn [res final trace].
  split; [done|]. split; [done|]. split; [done|].
  split; [count_calls; lia|]. split; [count_calls; lia|done].
Qed.

Lemma post_save_created self : post_save self true = Ret tt.
Proof. unfold post_save, clear. by rewrite andb_false_r. Qed.

Lemma count_zero_filter P t : count P t = 0 → List.filter P t = [].
Proof. unfold count. by destruct (List.filter P t). Qed.

(** The receiver returns, leaves the table alone and sends no signal. *)
Lemma post_save_frame self created w :
  let o := exec (post_save self created) w in
  res o = Ok tt ∧ rows (final o) = rows w ∧ db_fault (final o) = db_fault w ∧
  List.filter is_db_write (trace o) = [] ∧ List.filter is_signal (trace o) = [].
Proof.
  cbv zeta. unfold post_save.
  destruct (clear_frame self created w) as (H1 & H2 & H3 & H4 & H5 & _).
  split; [done|]. split; [done|]. split; [done|].
  split; by apply count_zero_filter.
Qed.

Ltac receiver_frame :=
  match goal with
  | |- context [exec (post_save ?self ?created) ?w] =>
      let Hres := fresh "Hres" in
      let Hrows := fresh "Hrows" in
      let Hfault := fresh "Hfault" in
      let Hwr := fresh "Hwr" in
      let Hsig := fresh "Hsig" in
      destruct (post_save_frame self created w) as (Hres & Hrows & Hfault & Hwr & Hsig)
  end.

Lemma exec_set_unavailable self key value w f :
  db_fault w = Some f →
  exec (set self key value) w = Outcome (Ok tt) w [db_get (add_prefix self key)].
Proof.
  intros Hf. unfold set. rewrite exec_bind, exec_try. exec_call.
  unfold and_then. cbn [res final trace perform fst snd]. rewrite Hf.
  by destruct f.
Qed.

Lemma exec_set_create self key value w :
  db_fault w = None → records (add_prefix self key) (rows w) = [] →
  exec (set self key value) w =
  let pk := add_prefix self key in
  let w1 := set_rows w (rows w ++ [Row pk value]) in
  Outcome (Ok tt)
    (if is_set (_cache self) then set_cache w1 (<[pk:=value]> (cache w1)) else w1)
    ([db_get pk; db_create pk value]
       ++ (if is_set (_cache self) then [cache_set pk value] else [])
       ++ [signal_send pk PNone value]).
Proof.
  intros Hf Hrec. unfold set. rewrite exec_bind, exec_try. exec_call.
  unfold and_then. cbn [res final trace perform fst snd]. rewrite Hf.
  fold (records (add_prefix self key) (rows w)). rewrite Hrec.
  cbn [res final trace fst snd]. rewrite exec_try, exec_bind. exec_call.
  unfold and_then. cbn [res final trace perform fst snd]. rewrite Hf.
  apply records_nil_existsb in Hrec. rewrite Hrec.
  cbn [res final trace fst snd]. rewrite post_save_created.
  cbn [res final trace fst snd exec app reply].
  rewrite exec_bind. unfold and_then. cbn [exec res final trace].
  rewrite exec_bind. unfold and_then.
  destruct (is_set (_cache self)).
  - exec_call. cbn [res final trace perform fst snd app]. exec_call.
    by cbn [res final trace perform fst snd app].
  - cbn [exec res final trace]. exec_call.
    by cbn [res final trace perform fst snd app].
Qed.

Lemma exec_set_update self key value w r :
  db_fault w = None → records (add_prefix self key) (rows w) = [r] →
  exec (set self key value) w =
  let pk := add_prefix self key in
  let o := exec (post_save self false)
                (set_rows w (update_rows (Row pk value) (rows w))) in
  let w1 := final o in
  Outcome (Ok tt)
    (if is_set (_cache self) then set_cache w1 (<[pk:=value]> (cache w1)) else w1)
    ([db_get pk; db_save (Row pk value)] ++ trace o
       ++ (if is_set (_cache self) then [cache_set pk value] else [])
       ++ [signal_send pk (Constance.value r) value]).
Proof.
  intros Hf Hrec. unfold set. rewrite exec_bind, exec_try. exec_call.
  unfold and_then. cbn [res final trace perform fst snd]. rewrite Hf.
  fold (records (add_prefix self key) (rows w)). rewrite Hrec.
  assert (Constance.key r = add_prefix self key) as Hkey.
  { apply (records_key _ (rows w)). rewrite Hrec. by left. }
  cbn [res final trace fst snd exec app reply].
  rewrite exec_bind, exec_bind. exec_call. unfold and_then.
  cbn [res final trace perform fst snd Constance.key]. rewrite Hf, Hkey.
  assert (existsb (has_key (add_prefix self key)) (rows w) = true) as ->.
  { destruct (existsb _ _) eqn:E; [done|].
    apply records_nil_existsb in E. by rewrite E in Hrec. }
  cbn [res final trace fst snd]. rewrite exec_bind. unfold and_then.
  set (w1 := set_rows w _).
  destruct (post_save_frame self false w1) as (Hres & _).
  rewrite Hres. cbn [res final trace fst snd exec app reply].
  rewrite exec_bind. unfold and_then.
  destruct (is_set (_cache self)).
  - exec_call. cbn [res final trace perform fst snd app]. exec_call.
    cbn [res final trace perform fst snd app]. by rewrite !app_nil_r.
  - cbn [exec res final trace]. exec_call.
    cbn [res final trace perform fst snd app]. by rewrite !app_nil_r.
Qed.

Lemma exec_set_duplicates self key value w r1 r2 rs :
  db_fault w = None → records (add_prefix self key) (rows w) = r1 :: r2 :: rs →
  exec (set self key value) w =
  Outcome (Err MultipleObjectsReturned) w [db_get (add_prefix self key)].
Proof.
  intros Hf Hrec. unfold set. rewrite exec_bind, exec_try. exec_call.
  unfold and_then. cbn [res final trace perform fst snd]. rewrite Hf.
  fold (records (add_prefix self key) (rows w)). by rewrite Hrec.
Qed.

(** Read-after-write, away from the sentinel's key: after a [set] that
    went through, [get] returns the value written. *)
Lemma read_after_write self key value w :
  is_set (_cache self) = true →
  db_fault w = None →
  res (exec (set self key value) w) = Ok tt →
  value ≠ PNone ∨ key ≠ _autofill_cachekey →
  res (exec (get self key) (final (exec (set self key value) w))) = Ok value.
Proof.
  intros Hc Hf Hres Hcond.
  set (pk := add_prefix self key).
  assert (∃ w', final (exec (set self key value) w) = w' ∧
                cache w' !! pk = Some value ∧ db_fault w' = None ∧
                records pk (rows w') = [Row pk value]) as (w' & -> & Hcw & Hfw & Hrw).
  { destruct (records pk (rows w)) as [|r [|r' l]] eqn:Hrec.
    - rewrite (exec_set_create self key value w Hf Hrec). cbv zeta. cbn [final].
      rewrite Hc. eexists. split; [done|]. cbn [cache rows db_fault set_cache set_rows].
      split; [apply lookup_insert_eq|]. split; [done|]. by apply records_after_create.
    - rewrite (exec_set_update self key value w r Hf Hrec). cbv zeta. cbn [final].
      rewrite Hc. eexists. split; [done|]. cbn [cache rows db_fault set_cache set_rows].
      receiver_frame. rewrite Hrows, Hfault.
      split; [apply lookup_insert_eq|]. split; [done|].
      by apply records_after_update with (r := r).
    - by rewrite (exec_set_duplicates self key value w r r' l Hf Hrec) in Hres. }
  destruct (decide (value = PNone)) as [->|Hv].
  - destruct Hcond as [?|Hkey]; [done|].
    apply (exec_get_unresolved self key w' Hkey); [|by right].
    unfold cached. fold pk. by rewrite Hcw.
  - rewrite get_phases, exec_bind, exec_get_cache_phase. unfold and_then.
    rewrite Hc. unfold cached. fold pk. rewrite Hcw.
    change (default PNone (Some value)) with value.
    assert (is_None value = false) as Hn by by destruct value.
    rewrite Hn. cbn [res final trace]. rewrite exec_get_db_phase, Hn. done.
Qed.

(** X20 -- What [set] announces, key included: on an available database
    a [set] that goes through sends one signal, which carries the
    prefixed key, the previous value of the record (None for a new
    record) and the new value; a [set] that meets duplicate records
    raises and sends none. *)
Lemma set_notification self key value w :
  db_fault w = None →
  let o := exec (set self key value) w in
  let pk := add_prefix self key in
  match records pk (rows w) with
  | [] =>
      res o = Ok tt ∧ List.filter is_signal (trace o) = [signal_send pk PNone value]
  | [r] =>
      res o = Ok tt ∧
      List.filter is_signal (trace o) = [signal_send pk (Constance.value r) value]
  | _ => res o = Err MultipleObjectsReturned ∧ List.filter is_signal (trace o) = []
  end.
Proof.
  intros Hf. cbv zeta.
  destruct (records (add_prefix self key) (rows w)) as [|r [|r' l]] eqn:Hrec.
  - rewrite (exec_set_create self key value w Hf Hrec). cbv zeta. cbn [res trace].
    split; [done|]. by destruct (is_set (_cache self)).
  - rewrite (exec_set_update self key value w r Hf Hrec). cbv zeta. cbn [res trace].
    split; [done|]. receiver_frame.
    rewrite !List.filter_app, Hsig. by destruct (is_set (_cache self)).
  - by rewrite (exec_set_duplicates self key value w r r' l Hf Hrec).
Qed.

(** ** Concurrent [set] *)

(** The pieces are the pieces of [set]. *)
Lemma set_pieces self key value :
  set self key value =
  try_except_else (do (db_get (add_prefix self key)))
    (λ e, match e with
          | OperationalError | ProgrammingError => Some (Ret NoOp)
          | DoesNotExist => Some (set_create self (add_prefix self key) value)
          | _ => None
          end)
    (λ constance, Ret (Found constance))
  ≫= set_tail self (add_prefix self key) value.
Proof. reflexivity. Qed.

Lemma step_lookup self key value w :
  db_fault w = None →
  step (residual self key value AtLookup) w =
  (match records (add_prefix self key) (rows w) with
   | [] => residual self key value AtCreate
   | [r] => residual self key value (AtSave r)
   | _ => Raise MultipleObjectsReturned
   end, w, [db_get (add_prefix self key)]).
Proof.
  intros Hf. unfold residual. rewrite set_pieces. unfold records.
  cbn [step do try_except_else mbind prog_mbind prog_bind perform]. rewrite Hf.
  by destruct (List.filter _ _) as [|r [|r' l]].
Qed.

Lemma step_create self key value w :
  db_fault w = None →
  step (residual self key value AtCreate) w =
  if existsb (has_key (add_prefix self key)) (rows w)
  then (residual self key value AtRefetch, w, [db_create (add_prefix self key) value])
  else (residual self key value (AtReceiver true 0 (Ret tt) PNone),
        set_rows w (rows w ++ [Row (add_prefix self key) value]),
        [db_create (add_prefix self key) value]).
Proof.
  intros Hf. unfold residual, set_create.
  cbn [step do try_except_else mbind prog_mbind prog_bind perform]. rewrite Hf.
  destruct (existsb _ _); [done|].
  cbn [try_except_else prog_bind]. by rewrite post_save_created.
Qed.

Lemma step_refetch self key value w :
  db_fault w = None →
  step (residual self key value AtRefetch) w =
  (match records (add_prefix self key) (rows w) with
   | [] => Raise DoesNotExist
   | [r] => residual self key value (AtSave r)
   | _ => Raise MultipleObjectsReturned
   end, w, [db_get (add_prefix self key)]).
Proof.
  intros Hf. unfold residual, records.
  cbn [step do try_except_else mbind prog_mbind prog_bind perform]. rewrite Hf.
  by destruct (List.filter _ _) as [|r [|r' l]].
Qed.

Lemma step_save self key value w r :
  db_fault w = None →
  Constance.key r = add_prefix self key →
  existsb (has_key (add_prefix self key)) (rows w) = true →
  step (residual self key value (AtSave r)) w =
  (residual self key value (AtReceiver false 5 (post_save self false) (Constance.value r)),
   set_rows w (update_rows (Row (add_prefix self key) value) (rows w)),
   [db_save (Row (add_prefix self key) value)]).
Proof.
  intros Hf Hk Hex. unfold residual, set_tail.
  cbn [step do try_except_else mbind prog_mbind prog_bind perform Constance.key].
  by rewrite Hf, Hk, Hex.
Qed.

Lemma step_receiver_call self key value w created n c k old :
  step (residual self key value (AtReceiver created n (Call c k) old)) w =
  (residual self key value (AtReceiver created (pred n) (k (perform c w).1) old),
   (perform c w).2, [c]).
Proof.
  unfold residual. cbn [step mbind prog_mbind prog_bind].
  by destruct (perform c w).
Qed.

Lemma step_receiver_ret self key value w created n u old :
  step (residual self key value (AtReceiver created n (Ret u) old)) w =
  if is_set (_cache self)
  then (residual self key value (AtSend created old),
        set_cache w (<[add_prefix self key := value]> (cache w)),
        [cache_set (add_prefix self key) value])
  else (residual self key value (AtEnd created old), w,
        [signal_send (add_prefix self key) old value]).
Proof. unfold residual. by destruct (is_set (_cache self)). Qed.

Lemma step_send self key value w created old :
  step (residual self key value (AtSend created old)) w =
  (residual self key value (AtEnd created old), w,
   [signal_send (add_prefix self key) old value]).
Proof. reflexivity. Qed.

(** A call that is no database write leaves the table alone. *)
Lemma perform_frame c w :
  is_db_write c = false →
  rows (perform c w).2 = rows w ∧ db_fault (perform c w).2 = db_fault w.
Proof.
  destruct c; try discriminate; intros _; cbn [perform]; by repeat case_match.
Qed.

Lemma yield_items_ret keys items :
  Forall (λ kv : string * pyval, is_Some (keys !! kv.1)) items →
  ∃ out, yield_items keys items = Ret out.
Proof.
  induction 1 as [|[k v] items [k' Hk] _ [out IH]]; [by eexists|].
  cbn [yield_items]. unfold subscript. simpl in Hk. rewrite Hk, IH. by eexists.
Qed.

(** The receiver makes at most five calls (the purge, the entry of
    [autofill], the read of the sentinel, the scan and the batch), none
    of them a write to the table, and does not raise, whatever the other
    process does in between. *)
Lemma quiet_post_save self created : quiet 5 (post_save self created).
Proof.
  unfold post_save, clear.
  destruct (is_set (_cache self)) eqn:Hc; [destruct created|]; cbn [andb negb]; try done.
  cbn [quiet do mbind prog_mbind prog_bind perform fst]. split; [done|]. split; [done|].
  intros _. unfold autofill, autofill_. rewrite Hc.
  cbn [quiet do mbind prog_mbind prog_bind perform fst]. split; [done|]. split; [done|].
  intros _. destruct (negb (timeout_set (_autofill_timeout self))); cbn [orb negb]; [done|].
  cbn [quiet do mbind prog_mbind prog_bind perform fst]. split; [done|]. split; [done|].
  intros w. destruct (truthy _); [done|].
  unfold mget_. rewrite Hc. cbn [andb].
  destruct (bool_decide (CONFIG self = [])).
  { cbn [quiet do mbind prog_mbind prog_bind perform fst]. split; [done|]. split; [done|].
    done. }
  unfold mget_stored.
  cbn [quiet do mbind prog_mbind prog_bind try_except_else perform fst].
  split; [done|]. split; [done|]. intros w'.
  destruct (db_fault w') as [f|].
  { destruct f;
      cbn [fst exn_of_fault try_except_else mbind prog_mbind prog_bind do quiet];
      by repeat split. }
  cbn [fst].
  destruct (yield_items_ret (prefixed_keys self (CONFIG self))
              (map (λ const, (Constance.key const, Constance.value const))
                   (filter (λ r, Constance.key r ∈ dom (prefixed_keys self (CONFIG self)))
                           (rows w')))) as [out Hout].
  { apply Forall_forall. intros [k v] Hin.
    apply list_elem_of_In, in_map_iff in Hin as (r & [= <- <-] & Hin).
    apply list_elem_of_In, list_elem_of_filter in Hin as [Hin _].
    by apply elem_of_dom. }
  cbn [mbind prog_mbind prog_bind]. rewrite Hout.
  cbn [try_except_else mbind prog_mbind prog_bind do quiet]. by repeat split.
Qed.

(** Past its write, a writer no longer matters to the race except by
    its role and the old value it holds. *)
Lemma race_ok_later self key v1 v2 s1 s1' s2 w w' :
  role_of s1 ≠ Pre → role_of s1' = role_of s1 → old_of s1' = old_of s1 →
  rows w' = rows w → db_fault w' = db_fault w →
  race_ok self key v1 v2 s1 s2 w → race_ok self key v1 v2 s1' s2 w'.
Proof.
  unfold race_ok. intros Hr Hr' Ho HR HF [Hf H]. rewrite Hr', HR, HF, Ho.
  split; [done|]. by destruct (role_of s1).
Qed.

Lemma race_ok_sym self key v1 v2 s1 s2 w :
  race_ok self key v1 v2 s1 s2 w → race_ok self key v2 v1 s2 s1 w.
Proof.
  unfold race_ok. intros [Hf H]. split; [done|].
  destruct (role_of s1), (role_of s2); try done. by destruct H as (? & ? & ?).
Qed.

Ltac race_later H :=
  refine (race_ok_later _ _ _ _ _ _ _ _ _ _ _ _ _ _ H); done.

(** One call of a writer keeps the race invariant and brings the writer
    closer to its end. *)
Lemma step_residual self key v1 v2 s1 s2 t1 w :
  race_ok self key v1 v2 s1 s2 w → proc_ok self key v1 s1 t1 →
  ∃ s1' w' t,
    step (residual self key v1 s1) w = (residual self key v1 s1', w', t) ∧
    race_ok self key v1 v2 s1' s2 w' ∧ proc_ok self key v1 s1' (t1 ++ t) ∧
    calls_left s1' ≤ pred (calls_left s1).
Proof.
  intros Hrace (Hsig & Hwr & Hq & Hold).
  pose proof Hrace as [Hf Hst]. cbv zeta in Hst, Hwr.
  set (pk := add_prefix self key) in *.
  assert (∀ c, is_signal c = false →
            List.filter is_signal (t1 ++ [c]) = List.filter is_signal t1) as Hnosig.
  { intros c Hc. rewrite List.filter_app. cbn [List.filter]. by rewrite Hc, app_nil_r. }
  assert (∀ c, is_db_write c = false →
            List.filter is_db_write (t1 ++ [c]) = List.filter is_db_write t1) as Hnowr.
  { intros c Hc. rewrite List.filter_app. cbn [List.filter]. by rewrite Hc, app_nil_r. }
  assert (∀ c, is_db_write c = true →
            List.filter is_db_write (t1 ++ [c]) = List.filter is_db_write t1 ++ [c]) as Hwrite.
  { intros c Hc. rewrite List.filter_app. cbn [List.filter]. by rewrite Hc. }
  destruct s1 as [| | |c|cr n q old|cr old|cr old]; cbn [role_of] in Hst.
  - (* lookup *)
    rewrite step_lookup by done. fold pk.
    destruct (role_of s2) eqn:R2; [| |done].
    + destruct Hst as (Hrec & _ & He). rewrite Hrec.
      exists AtCreate, w, [db_get pk]. split; [done|].
      split; [unfold race_ok; cbn [role_of]; by rewrite R2|].
      split; [|simpl; lia]. unfold proc_ok. cbv zeta.
      rewrite Hnosig, Hnowr by done. by repeat split.
    + destruct Hst as (Hrec & _). rewrite Hrec.
      exists (AtSave (Row pk v2)), w, [db_get pk]. split; [done|].
      split; [unfold race_ok; cbn [role_of]; by rewrite R2|].
      split; [|simpl; lia]. unfold proc_ok. cbv zeta.
      rewrite Hnosig, Hnowr by done. split; [done|]. split; [by left|done].
  - (* create *)
    rewrite step_create by done. fold pk.
    destruct (role_of s2) eqn:R2; [| |done].
    + destruct Hst as (Hrec & _ & He).
      pose proof Hrec as Hex. apply records_nil_existsb in Hex. rewrite Hex.
      exists (AtReceiver true 0 (Ret tt) PNone),
             (set_rows w (rows w ++ [Row pk v1])), [db_create pk v1].
      split; [done|]. split.
      { unfold race_ok. cbn [role_of rows set_rows db_fault]. rewrite R2. fold pk.
        split; [done|]. split; [by apply records_after_create|].
        by destruct s2. }
      split; [|simpl; lia]. unfold proc_ok. cbv zeta. cbn [role_of old_of quiet]. fold pk.
      rewrite Hnosig, Hwrite, Hwr by done. by repeat split.
    + destruct Hst as (Hrec & _).
      assert (existsb (has_key pk) (rows w) = true) as ->.
      { destruct (existsb _ _) eqn:E; [done|].
        apply records_nil_existsb in E. by rewrite E in Hrec. }
      exists AtRefetch, w, [db_create pk v1]. split; [done|].
      split; [unfold race_ok; cbn [role_of]; rewrite R2; by fold pk|].
      split; [|simpl; lia]. unfold proc_ok. cbv zeta. fold pk.
      rewrite Hnosig, Hwrite, Hwr by done. by repeat split.
  - (* refetch *)
    rewrite step_refetch by done. fold pk.
    destruct (role_of s2) eqn:R2; [by destruct Hst as (_ & ? & _)| |done].
    destruct Hst as (Hrec & _). rewrite Hrec.
    exists (AtSave (Row pk v2)), w, [db_get pk]. split; [done|].
    split; [unfold race_ok; cbn [role_of]; by rewrite R2|].
    split; [|simpl; lia]. unfold proc_ok. cbv zeta. fold pk.
    rewrite Hnosig, Hnowr by done. split; [done|]. split; [by right|done].
  - (* save *)
    destruct (role_of s2) eqn:R2; [by destruct Hst as (_ & ? & _)| |done].
    destruct Hst as (Hrec & ->).
    assert (existsb (has_key pk) (rows w) = true) as Hex.
    { destruct (existsb _ _) eqn:E; [done|].
      apply records_nil_existsb in E. by rewrite E in Hrec. }
    rewrite step_save by done. fold pk. cbn [Constance.value].
    exists (AtReceiver false 5 (post_save self false) v2),
           (set_rows w (update_rows (Row pk v1) (rows w))), [db_save (Row pk v1)].
    split; [done|]. split.
    { unfold race_ok. cbn [role_of old_of rows set_rows db_fault]. rewrite R2. fold pk.
      split; [done|]. split; [|done]. by apply records_after_update with (r := Row pk v2). }
    split; [|simpl; lia]. unfold proc_ok. cbv zeta. cbn [role_of old_of]. fold pk.
    rewrite Hnosig, Hwrite by done. split; [done|].
    split; [destruct Hwr as [-> | ->]; [by left|by right]|].
    split; [apply quiet_post_save|done].
  - (* in the receiver *)
    assert (role_of (AtReceiver cr n q old) ≠ Pre) as Hrole by (simpl; by destruct cr).
    destruct q as [u|e|c k]; [|done|].
    + rewrite step_receiver_ret. fold pk. destruct (is_set (_cache self)).
      * exists (AtSend cr old), (set_cache w (<[pk:=v1]> (cache w))), [cache_set pk v1].
        split; [done|].
        split; [race_later Hrace|].
        split; [|simpl; lia]. unfold proc_ok. cbv zeta.
        rewrite Hnosig, Hnowr by done. by repeat split.
      * exists (AtEnd cr old), w, [signal_send pk old v1].
        split; [done|].
        split; [race_later Hrace|].
        split; [|simpl; lia]. unfold proc_ok. cbv zeta. fold pk.
        rewrite Hnowr by done. rewrite List.filter_app, Hsig. by repeat split.
    + cbn [quiet] in Hq. destruct Hq as (Hcw & Hcs & Hq). destruct n as [|n]; [done|].
      rewrite step_receiver_call. cbn [pred].
      destruct (perform_frame c w Hcw) as [Hrows Hfault].
      exists (AtReceiver cr n (k (perform c w).1) old), (perform c w).2, [c].
      split; [done|].
      split; [race_later Hrace|].
      split; [|simpl; lia]. unfold proc_ok. cbv zeta.
      rewrite Hnosig, Hnowr by done. by repeat split.
  - (* signal *)
    assert (role_of (AtSend cr old) ≠ Pre) as Hrole by (simpl; by destruct cr).
    rewrite step_send. fold pk. exists (AtEnd cr old), w, [signal_send pk old v1].
    split; [done|].
    split; [race_later Hrace|].
    split; [|simpl; lia]. unfold proc_ok. cbv zeta. fold pk.
    rewrite Hnowr by done. rewrite List.filter_app, Hsig. by repeat split.
  - exists (AtEnd cr old), w, []. split; [done|]. split; [done|].
    split; [|simpl; lia]. rewrite app_nil_r. by repeat split.
Qed.

Lemma residual_finished self key value s t :
  proc_ok self key value s t →
  finished (residual self key value s) = true → ∃ created old, s = AtEnd created old.
Proof.
  intros (_ & _ & Hq & _).
  destruct s as [| | |c|cr n q old|cr old|cr old]; try done; [|by eexists _, _].
  unfold residual. destruct q; [|done..]. by destruct (is_set (_cache self)).
Qed.

Lemma turns_cons b b' sched :
  turns b (b' :: sched) = (if Bool.eqb b b' then 1 else 0) + turns b sched.
Proof. unfold turns. simpl. by destruct (Bool.eqb b b'). Qed.

(** The processes of a race stay writers of [set], whatever the schedule. *)
Lemma interleave_residual self key v1 v2 sched s1 s2 t1 t2 w :
  race_ok self key v1 v2 s1 s2 w →
  proc_ok self key v1 s1 t1 → proc_ok self key v2 s2 t2 →
  ∃ s1' s2' t1' t2' w',
    interleave sched (Run (residual self key v1 s1) t1 (residual self key v2 s2) t2 w) =
      Run (residual self key v1 s1') t1' (residual self key v2 s2') t2' w' ∧
    race_ok self key v1 v2 s1' s2' w' ∧
    proc_ok self key v1 s1' t1' ∧ proc_ok self key v2 s2' t2' ∧
    calls_left s1' ≤ calls_left s1 - turns true sched ∧
    calls_left s2' ≤ calls_left s2 - turns false sched.
Proof.
  revert s1 s2 t1 t2 w.
  induction sched as [|b sched IH]; intros s1 s2 t1 t2 w Hw H1 H2.
  - exists s1, s2, t1, t2, w. unfold turns. simpl.
    split; [done|]. split; [done|]. split; [done|]. split; [done|]. lia.
  - destruct b.
    + destruct (step_residual self key v1 v2 s1 s2 t1 w Hw H1)
        as (s1' & w' & t & Hstep & Hw' & H1' & Hleft).
      destruct (IH s1' s2 (t1 ++ t) t2 w' Hw' H1' H2)
        as (u1 & u2 & t1' & t2' & w'' & Hrun & Hw'' & Hu1 & Hu2 & Hl1 & Hl2).
      exists u1, u2, t1', t2', w''.
      cbn [interleave proc1 proc2 calls1 calls2 shared]. rewrite Hstep, Hrun.
      rewrite !turns_cons. cbn [Bool.eqb].
      split; [done|]. split; [done|]. split; [done|]. split; [done|]. lia.
    + destruct (step_residual self key v2 v1 s2 s1 t2 w (race_ok_sym _ _ _ _ _ _ _ Hw) H2)
        as (s2' & w' & t & Hstep & Hw' & H2' & Hleft).
      destruct (IH s1 s2' t1 (t2 ++ t) w' (race_ok_sym _ _ _ _ _ _ _ Hw') H1 H2')
        as (u1 & u2 & t1' & t2' & w'' & Hrun & Hw'' & Hu1 & Hu2 & Hl1 & Hl2).
      exists u1, u2, t1', t2', w''.
      cbn [interleave proc1 proc2 calls1 calls2 shared]. rewrite Hstep, Hrun.
      rewrite !turns_cons. cbn [Bool.eqb].
      split; [done|]. split; [done|]. split; [done|]. split; [done|]. lia.
Qed.

(* ================================================================ *)
(** * The claims *)

(** C1 -- Read-after-write.  The property holds for every key and value
    except one ([read_after_write] above): the sentinel of [autofill]
    lives in the same key space as the configuration entries.  On a site
    with a cache, [set("autofilled", None)] goes through (record created,
    cache entry written, signal sent), and the following
    [get("autofilled")] takes the cached None for a miss, runs
    [autofill], which puts its marker under that very key, and returns
    the marker 1 instead of the None just written. *)
Theorem read_after_write_sentinel_key :
  let o := exec (set site "autofilled" PNone) fresh in
  res o = Ok tt ∧
  trace o = [db_get "autofilled"; db_create "autofilled" PNone;
             cache_set "autofilled" PNone; signal_send "autofilled" PNone PNone] ∧
  res (exec (get site "autofilled") (final o)) = Ok (PInt 1).
Proof. vm_compute. done. Qed.

(** C2 -- Notification payload.  A [set] that goes through sends exactly
    one signal with the old value (None for a new record) and the new
    value ([set_notification] above), but the key it carries is the
    prefixed key, not the key the caller gave: with the prefix
    "constance:", [set("A", 1)] announces the key "constance:A". *)
Theorem set_notification_prefixed_key :
  let o := exec (set prefixed_site "A" (PInt 1)) fresh in
  res o = Ok tt ∧
  List.filter is_signal (trace o) = [signal_send "constance:A" PNone (PInt 1)] ∧
  List.filter is_signal (trace o) ≠ [signal_send "A" PNone (PInt 1)].
Proof. vm_compute. split; [done|]. split; [done|]. discriminate. Qed.

(** C3 -- Partial-miss completeness of [mget].  When the database is
    available and holds a record for every requested key, [mget] with
    [fallback] true returns normally and yields a pair for every requested
    key: the cached value when the cache (as [mget] last read it) holds
    one, and otherwise the value of the key's database record. *)
Theorem mget_partial_miss self keys w :
  db_fault w = None →
  (∀ k, k ∈ keys → ∃ v, Row (add_prefix self k) v ∈ rows w) →
  let o := exec (mget self keys true) w in
  ∃ out, res o = Ok out ∧
    ∀ k, k ∈ keys →
      ∃ v, (k, v) ∈ out ∧
        match (if is_set (_cache self) then cache (final o) !! add_prefix self k
               else None) with
        | Some c => v = c
        | None => Row (add_prefix self k) v ∈ rows w
        end.
Proof.
  intros Hdb Hall. cbv zeta.
  destruct keys as [|k0 keys'] eqn:Hkeys.
  { rewrite exec_mget_nil. eexists. split; [done|]. intros k Hk.
    by apply elem_of_nil in Hk. }
  rewrite <- Hkeys in *. assert (keys ≠ []) as Hne by by rewrite Hkeys.
  clear Hkeys.
  destruct (is_set (_cache self)) eqn:Hc.
  - rewrite (exec_mget_cached self keys w Hc Hne). cbv zeta. cbn [res final].
    set (kd := prefixed_keys self keys).
    set (w1 := if negb _ then _ else w).
    assert (rows w1 = rows w ∧ db_fault w1 = None) as [Hrows Hf].
    { subst w1. destruct (negb _); [|done].
      destruct (autofill_total self w) as (_ & -> & -> & _). done. }
    rewrite Hf. eexists. split; [done|].
    intros k Hk. pose proof (prefixed_keys_elem self keys k Hk) as Hkd. fold kd in Hkd.
    assert (add_prefix self k ∈ dom kd) as Hdom by (apply elem_of_dom; by eexists).
    pose proof (get_many_reply_lookup (dom kd) w1 _ Hdom) as Hlk.
    destruct (cache w1 !! add_prefix self k) as [c|] eqn:Hcache.
    + exists c. split; [|done].
      assert ((k, c) ∈ hit_pairs kd (get_many_reply (dom kd) w1)) as Hin.
      { apply elem_of_hit_pairs. by exists (add_prefix self k). }
      destruct (bool_decide _); [done|]. apply elem_of_app. by left.
    + destruct (Hall k Hk) as [v Hv]. exists v. split; [|done].
      assert (filter (λ kv : string * string,
                get_many_reply (dom kd) w1 !! kv.1 = None) kd
                !! add_prefix self k = Some k) as Hpend.
      { apply map_lookup_filter_Some. split; [done|]. simpl. by rewrite Hlk. }
      rewrite bool_decide_eq_false_2.
      2:{ intros E. rewrite E in Hpend. by rewrite lookup_empty in Hpend. }
      apply elem_of_app. right. apply elem_of_stored_pairs.
      exists (Row (add_prefix self k) v). rewrite Hrows. done.
  - rewrite (exec_mget_uncached self keys true w) by (by rewrite ?Hc).
    cbv zeta. cbn [res final]. rewrite Hdb. eexists. split; [done|].
    intros k Hk. destruct (Hall k Hk) as [v Hv]. exists v. split; [|done].
    apply elem_of_stored_pairs. exists (Row (add_prefix self k) v).
    split; [done|]. split; [|done]. by apply prefixed_keys_elem.
Qed.

Lemma mget_partial_miss_witness :
  db_fault partly_cached = None ∧
  ∃ out, res (exec (mget small_site ["A"; "B"] true) partly_cached) = Ok out ∧
         (∃ v, ("A", v) ∈ out) ∧ ("B", PInt 2) ∈ out.
Proof.
  split; [reflexivity|].
  assert (∀ k, k ∈ ["A"; "B"] →
               ∃ v, Row (add_prefix small_site k) v ∈ rows partly_cached) as Hall.
  { intros k Hk. apply elem_of_cons in Hk as [->|Hk].
    - exists (PInt 1). by left.
    - apply list_elem_of_singleton in Hk as ->. exists (PInt 2). right. by left. }
  destruct (mget_partial_miss small_site ["A"; "B"] partly_cached eq_refl Hall)
    as (out & Hout & H).
  exists out. split; [exact Hout|]. split.
  - destruct (H "A") as (v & Hv & _); [by left|]. by exists v.
  - destruct (H "B") as (v & Hv & Hsrc); [right; by left|].
    assert (v = PInt 2) as <-; [|exact Hv].
    assert (cache (final (exec (mget small_site ["A"; "B"] true) partly_cached))
              !! add_prefix small_site "B" = None) as Hmiss by (vm_compute; reflexivity).
    cbn [is_set _cache small_site] in Hsrc. rewrite Hmiss in Hsrc.
    apply list_elem_of_In in Hsrc. simpl in Hsrc.
    destruct Hsrc as [E|[E|[]]]; [discriminate E|by injection E].
Defined.

(** C4 -- Autofill idempotence.  In every state whose cache holds the
    sentinel (the marker 1 that [autofill] writes, or any true value,
    under the prefixed key "autofilled"), a call of [autofill] returns
    without querying the database and without writing to the cache: the
    world is unchanged.  Hence an [autofill] that left the sentinel
    behind followed by a second [autofill] scans the database at most
    once. *)
Theorem autofill_idempotent self w :
  truthy (cached w (full_cachekey self)) = true →
  (let o := exec (autofill self) w in
   res o = Ok tt ∧ final o = w ∧
   count is_db_call (trace o) = 0 ∧ count is_cache_write (trace o) = 0) ∧
  (∀ w0, final (exec (autofill self) w0) = w →
     let o2 := exec (autofill self;; autofill self) w0 in
     res o2 = Ok tt ∧ final o2 = w ∧ count is_db_call (trace o2) ≤ 1).
Proof.
  intros Hm.
  assert (let o := exec (autofill self) w in
          res o = Ok tt ∧ final o = w ∧
          count is_db_call (trace o) = 0 ∧ count is_cache_write (trace o) = 0) as H1.
  { destruct (autofill_cases self w) as [E|[[_ E]|(_ & _ & Hm' & _)]];
      [rewrite E; by repeat split..|congruence]. }
  split; [exact H1|].
  intros w0 Hw0. rewrite exec_bind. unfold and_then.
  destruct (autofill_total self w0) as (Hr & _ & _ & _ & _ & _ & _ & Hdb).
  rewrite Hr, Hw0. cbn [res final trace].
  destruct H1 as (Hr1 & Hf1 & Hdb1 & _).
  repeat split; [done..|]. rewrite count_app, Hdb1. lia.
Qed.

Lemma autofill_idempotent_witness :
  truthy (cached warm (full_cachekey site)) = true ∧
  final (exec (autofill site) warm) = warm.
Proof.
  assert (truthy (cached warm (full_cachekey site)) = true) as H
    by (vm_compute; reflexivity).
  split; [exact H|].
  destruct (autofill_idempotent site warm H) as [(_ & Hfin & _) _]. exact Hfin.
Defined.

(** C5 -- Unavailable-store resilience, as the code has it.  While every
    database query raises the store-unavailable error, none of the three
    operations raises.  [get] returns what the cache holds for the key
    once its [autofill] attempt is over -- the absent-marker when the
    cache holds nothing for it, or when no cache is configured -- and
    writes nothing to the database; [mget] yields only pairs that the
    cache resolved (none without a cache or without [fallback]); [set]
    returns after its one failed lookup: no database write, no cache
    write, no signal. *)
Theorem unavailable_store_degrades self key value keys fallback w f :
  db_fault w = Some f →
  (let o := exec (get self key) w in
   res o = Ok (if is_set (_cache self)
               then cached (final o) (add_prefix self key) else PNone) ∧
   count is_db_write (trace o) = 0 ∧ rows (final o) = rows w) ∧
  (let o := exec (mget self keys fallback) w in
   ∃ out, res o = Ok out ∧
     ∀ k v, (k, v) ∈ out →
       is_set (_cache self) && fallback = true ∧ k ∈ keys ∧
       cache (final o) !! add_prefix self k = Some v) ∧
  exec (set self key value) w = Outcome (Ok tt) w [db_get (add_prefix self key)].
Proof.
  intros Hf. split; [|split].
  - cbv zeta. rewrite get_phases, exec_bind, exec_get_cache_phase. unfold and_then.
    destruct (autofill_total self w) as (_ & Hr & Hfa & _ & _ & Hw & _).
    destruct (is_set (_cache self)) eqn:Hc.
    + destruct (is_None (cached w (add_prefix self key))) eqn:Hn.
      * cbv zeta. cbn [res final trace]. rewrite exec_get_db_phase, Hfa, Hf.
        destruct (is_None (cached (final (exec (autofill self) w)) (add_prefix self key)));
          cbn [res final trace]; (split; [done|]); (split; [|done]);
          count_calls; rewrite Hw; lia.
      * cbn [res final trace]. rewrite exec_get_db_phase, Hn. by cbn [res final trace].
    + cbn [res final trace]. rewrite exec_get_db_phase, Hf. by cbn [is_None res final trace].
  - cbv zeta. destruct keys as [|k0 keys'] eqn:Hkeys.
    { rewrite exec_mget_nil. eexists. split; [done|]. intros k v H.
      by apply elem_of_nil in H. }
    rewrite <- Hkeys. assert (keys ≠ []) as Hne by by rewrite Hkeys. clear Hkeys.
    destruct (is_set (_cache self) && fallback) eqn:Hcf.
    + apply andb_true_iff in Hcf as [Hc ->].
      rewrite (exec_mget_cached self keys w Hc Hne). cbv zeta. cbn [res final].
      set (kd := prefixed_keys self keys).
      set (w1 := if negb _ then _ else w).
      assert (db_fault w1 = Some f) as ->.
      { subst w1. destruct (negb _); [|done].
        destruct (autofill_total self w) as (_ & _ & -> & _). done. }
      eexists. split; [done|]. intros k v Hin.
      assert ((k, v) ∈ hit_pairs kd (get_many_reply (dom kd) w1)) as H.
      { destruct (bool_decide _); [done|]. by rewrite app_nil_r in Hin. }
      apply elem_of_hit_pairs in H as (pk & Hv & Hk).
      apply prefixed_keys_inv in Hk as [Hk ->].
      apply map_lookup_filter_Some in Hv as [Hv _]. done.
    + rewrite (exec_mget_uncached self keys fallback w Hcf Hne). cbv zeta.
      cbn [res final]. rewrite Hf. eexists. split; [done|]. intros k v H.
      by apply elem_of_nil in H.
  - by apply exec_set_unavailable with (f := f).
Qed.

Lemma unavailable_store_degrades_witness :
  db_fault cached_but_down = Some NotReadyOperational ∧
  exec (set site "A" (PInt 2)) cached_but_down =
    Outcome (Ok tt) cached_but_down [db_get "A"].
Proof.
  split; [reflexivity|].
  destruct (unavailable_store_degrades site "A" (PInt 2) ["A"] true cached_but_down
              NotReadyOperational eq_refl) as (_ & _ & H).
  exact H.
Defined.

(** C5, as stated, fails: [get] does not always return the
    absent-marker while the database is unavailable, it serves the
    cache first. *)
Lemma get_unavailable_serves_cache :
  ¬ (∀ self key w f,
       db_fault w = Some f → res (exec (get self key) w) = Ok PNone).
Proof.
  intros H.
  specialize (H site "A" cached_but_down NotReadyOperational eq_refl).
  vm_compute in H. discriminate.
Qed.

(** C6 -- Invalidation.  When a cache is configured and the save was not
    a creation, [clear] issues one [delete_many] for the prefixed registry
    keys followed by the sentinel key -- after which none of them is in
    the cache -- and then runs [autofill] in that purged state.  On a
    fresh creation (and when no cache is configured) it makes no call at
    all and the world is unchanged. *)
Theorem clear_purges_then_autofills self created w :
  let o := exec (clear self created) w in
  let keys := map (add_prefix self) (CONFIG self) ++ [full_cachekey self] in
  let purged := set_cache w (foldr delete (cache w) keys) in
  (is_set (_cache self) = true → created = false →
     (∀ k, k ∈ keys → cache purged !! k = None) ∧
     res o = res (exec (autofill self) purged) ∧
     final o = final (exec (autofill self) purged) ∧
     trace o = cache_delete_many keys :: trace (exec (autofill self) purged) ∧
     (∃ t, trace (exec (autofill self) purged) = enter_autofill :: t) ∧
     List.filter is_enter_autofill (trace o) = [enter_autofill]) ∧
  (created = true ∨ is_set (_cache self) = false → o = Outcome (Ok tt) w []).
Proof.
  cbv zeta. split.
  - intros Hc ->. unfold clear. rewrite Hc. cbn [andb negb].
    rewrite exec_bind. exec_call. unfold and_then. cbn [res final trace perform fst snd].
    fold (full_cachekey self). repeat split.
    + intros k Hk. simpl.
      induction (map (add_prefix self) (CONFIG self) ++ [full_cachekey self])
        as [|x l IH]; [by apply elem_of_nil in Hk|].
      simpl. destruct (decide (x = k)) as [->|N]; [apply lookup_delete_eq|].
      rewrite lookup_delete_ne by done. apply IH.
      apply elem_of_cons in Hk as [->|Hk]; done.
    + match goal with |- context [exec (autofill self) ?x] =>
        destruct (autofill_cases self x) as [E|[[_ E]|(_ & _ & _ & E)]]; rewrite E
      end; by eexists.
    + match goal with |- context [exec (autofill self) ?x] =>
        pose proof (autofill_total self x) as (_ & _ & _ & H1 & _);
        destruct (autofill_cases self x) as [E|[[_ E]|(_ & _ & _ & E)]]; rewrite E in *
      end; cbn [trace]; try done.
      simpl. unfold scan_trace. by destruct (CONFIG self).
  - intros H. unfold clear. destruct H as [->| ->]; [|done].
    by rewrite andb_false_r.
Qed.

Lemma clear_purges_then_autofills_witness :
  is_set (_cache site) = true ∧
  (∃ t, trace (exec (clear site false) warm) =
        cache_delete_many ["A"; "B"; "autofilled"] :: enter_autofill :: t).
Proof.
  assert (is_set (_cache site) = true) as H1 by reflexivity.
  split; [exact H1|].
  destruct (clear_purges_then_autofills site false warm) as [H _].
  destruct (H H1 eq_refl) as (_ & _ & _ & Ht & [t Ha] & _).
  exists t. rewrite Ht, Ha. reflexivity.
Defined.

(** C7 -- Bounded cache retry in [mget].  No execution of [mget] issues
    more than two [get_many].  With [fallback] true and a cache
    configured: when the first [get_many] returns fewer hits than there
    are (distinct) requested keys, the trace is that [get_many], one run
    of [autofill], one more [get_many], and then at most the database
    query -- [autofill] is entered exactly once and [get_many] is issued
    exactly twice; when the first reply is complete, there is no
    [autofill] and no second [get_many]. *)
Theorem mget_bounded_retry self keys fallback w :
  let o := exec (mget self keys fallback) w in
  let kd := prefixed_keys self keys in
  count is_get_many (trace o) ≤ 2 ∧
  (fallback = true → is_set (_cache self) = true →
   size (get_many_reply (dom kd) w) < size kd →
   count is_enter_autofill (trace o) = 1 ∧
   count is_get_many (trace o) = 2 ∧
   ∃ rest, trace o = cache_get_many (dom kd) :: trace (exec (autofill self) w)
                       ++ cache_get_many (dom kd) :: rest ∧
           count is_get_many rest = 0 ∧ count is_enter_autofill rest = 0) ∧
  (fallback = true → is_set (_cache self) = true → keys ≠ [] →
   size (get_many_reply (dom kd) w) = size kd →
   count is_enter_autofill (trace o) = 0 ∧ count is_get_many (trace o) = 1).
Proof.
  cbv zeta.
  destruct (autofill_total self w) as (_ & _ & _ & Ha & Hg & _).
  assert (∀ b (x : call), is_get_many x = false → is_enter_autofill x = false →
            count is_get_many (if b : bool then [] else [x]) = 0 ∧
            count is_enter_autofill (if b : bool then [] else [x]) = 0) as Htail.
  { intros [] x H1 H2; unfold count; simpl; by rewrite ?H1, ?H2. }
  destruct keys as [|k0 keys'] eqn:Hkeys.
  { rewrite exec_mget_nil. cbn [trace]. unfold count at 1. simpl.
    split; [lia|]. split; [|done].
    intros _ _ H. unfold prefixed_keys in H. simpl in H.
    rewrite map_size_empty in H. lia. }
  rewrite <- Hkeys. assert (keys ≠ []) as Hne by by rewrite Hkeys.
  clear Hkeys.
  destruct (is_set (_cache self) && fallback) eqn:Hcf.
  - apply andb_true_iff in Hcf as [Hc ->].
    rewrite (exec_mget_cached self keys w Hc Hne). cbv zeta. cbn [trace].
    set (kd := prefixed_keys self keys).
    set (pend := bool_decide (_ = ∅)).
    match goal with |- context [if pend then [] else [?x]] =>
      destruct (Htail pend x eq_refl eq_refl) as [Ht1 Ht2] end.
    destruct (negb (size (get_many_reply (dom kd) w) =? size kd)) eqn:Hmiss.
    + rewrite !count_cons, !count_app, !count_cons, !count_nil, Ha, Hg, Ht1, Ht2.
      cbn [is_get_many is_enter_autofill].
      split; [lia|]. split.
      * intros _ _ _. split; [lia|]. split; [lia|].
        eexists. split; [by rewrite <- app_assoc|]. done.
      * intros _ _ _ Heq. apply negb_true_iff, Nat.eqb_neq in Hmiss. done.
    + cbn [app]. rewrite !count_cons, Ht1, Ht2.
      cbn [is_get_many is_enter_autofill].
      split; [lia|]. split.
      * intros _ _ Hlt. apply negb_false_iff, Nat.eqb_eq in Hmiss. lia.
      * done.
  - rewrite (exec_mget_uncached self keys fallback w Hcf Hne). cbv zeta. cbn [trace].
    split; [unfold count; simpl; lia|].
    split; intros -> Hc; rewrite Hc in Hcf; done.
Qed.

Lemma mget_bounded_retry_witness :
  is_set (_cache site) = true ∧
  size (get_many_reply (dom (prefixed_keys site ["A"; "B"])) partly_cached)
    < size (prefixed_keys site ["A"; "B"]) ∧
  count is_enter_autofill (trace (exec (mget site ["A"; "B"] true) partly_cached)) = 1 ∧
  count is_get_many (trace (exec (mget site ["A"; "B"] true) partly_cached)) = 2.
Proof.
  assert (is_set (_cache site) = true) as H1 by reflexivity.
  assert (size (get_many_reply (dom (prefixed_keys site ["A"; "B"])) partly_cached)
          < size (prefixed_keys site ["A"; "B"])) as H2 by (vm_compute; lia).
  split; [exact H1|]. split; [exact H2|].
  destruct (mget_bounded_retry site ["A"; "B"] true partly_cached) as (_ & H & _).
  destruct (H eq_refl H1 H2) as (Ha & Hg & _). by split.
Defined.

(** C8 -- Create-race convergence.  Two processes run [set(K, V1)] and
    [set(K, V2)] on an available database that has no record for K, their
    calls -- those of the [post_save] receiver included -- interleaved
    by an arbitrary schedule.  A process that got eleven turns has
    finished; and once both have finished, both have returned normally,
    the table holds exactly one record for K, and its value is V1 or V2.
    More precisely, one of the two created the record and the other one
    -- whether it found the record at its lookup, or lost the uniqueness
    race and fetched the winner's record -- went on as an update: it
    saved its own value, which is the final value, and its signal
    carries the creator's value as the old value. *)
Theorem set_create_race self key v1 v2 w sched :
  db_fault w = None →
  records (add_prefix self key) (rows w) = [] →
  let pk := add_prefix self key in
  let r := interleave sched (Run (set self key v1) [] (set self key v2) [] w) in
  (11 ≤ turns true sched → finished (proc1 r) = true) ∧
  (11 ≤ turns false sched → finished (proc2 r) = true) ∧
  (finished (proc1 r) = true → finished (proc2 r) = true →
   proc1 r = Ret tt ∧ proc2 r = Ret tt ∧
   (∃ v, records pk (rows (shared r)) = [Row pk v] ∧ (v = v1 ∨ v = v2)) ∧
   (race_won pk v1 v2 (calls1 r) (calls2 r) (shared r) ∨
    race_won pk v2 v1 (calls2 r) (calls1 r) (shared r))).
Proof.
  intros Hf Hrec. cbv zeta.
  destruct (interleave_residual self key v1 v2 sched AtLookup AtLookup [] [] w)
    as (s1 & s2 & t1 & t2 & w' & Hrun & Hrace & H1 & H2 & Hl1 & Hl2).
  { split; [done|]. by cbn [role_of]. }
  { by repeat split. }
  { by repeat split. }
  change (residual self key v1 AtLookup) with (set self key v1) in Hrun.
  change (residual self key v2 AtLookup) with (set self key v2) in Hrun.
  rewrite Hrun. cbn [proc1 proc2 calls1 calls2 shared].
  simpl in Hl1, Hl2. split; [|split].
  - intros Ht. destruct s1; simpl in Hl1; try lia. done.
  - intros Ht. destruct s2; simpl in Hl2; try lia. done.
  - intros Hfin1 Hfin2.
    apply (residual_finished _ _ _ _ _ H1) in Hfin1 as (c1 & old1 & ->).
    apply (residual_finished _ _ _ _ _ H2) in Hfin2 as (c2 & old2 & ->).
    split; [done|]. split; [done|].
    destruct Hrace as [_ Hst]. cbv zeta in Hst.
    destruct H1 as (Hsig1 & Hwr1 & _ & Hold1). destruct H2 as (Hsig2 & Hwr2 & _ & Hold2).
    cbv zeta in Hwr1, Hwr2. cbn [role_of old_of] in *.
    destruct c1, c2; try done; destruct Hst as [Hst Ho]; subst.
    + rewrite (Hold1 eq_refl) in Hsig1.
      split; [exists v2; split; [done|by right]|]. left. by repeat split.
    + rewrite (Hold2 eq_refl) in Hsig2.
      split; [exists v1; split; [done|by left]|]. right. by repeat split.
Qed.

Lemma set_create_race_witness :
  db_fault fresh = None ∧
  records (add_prefix site "A") (rows fresh) = [] ∧
  let r := interleave [true; false; false; true;
                       true; true; true; true; true; true; true; true; true;
                       false; false; false; false; false; false; false; false; false]
                      (Run (set site "A" (PInt 1)) [] (set site "A" (PInt 2)) [] fresh) in
  proc1 r = Ret tt ∧ proc2 r = Ret tt ∧
  race_won "A" (PInt 2) (PInt 1) (calls2 r) (calls1 r) (shared r).
Proof.
  split; [reflexivity|]. split; [reflexivity|].
  destruct (set_create_race site "A" (PInt 1) (PInt 2) fresh
              [true; false; false; true;
               true; true; true; true; true; true; true; true; true;
               false; false; false; false; false; false; false; false; false]
              eq_refl eq_refl)
    as (Hfin1 & Hfin2 & H).
  assert (11 ≤ 11) as Hle by lia.
  destruct (H (Hfin1 Hle) (Hfin2 Hle)) as (E1 & E2 & _ & [Hwon|Hwon]).
  - exfalso. destruct Hwon as (Hr & _). vm_compute in Hr. discriminate Hr.
  - cbv zeta. split; [exact E1|]. split; [exact E2|exact Hwon].
Defined.

(** C9 -- Sentinel written even on a failed warm-up.  With a cache
    configured, a nonzero autofill window and no (true) sentinel in the
    cache, [autofill] returns normally and its only cache write is one
    [set_many] whose batch has an entry under the sentinel key, which
    therefore is in the cache afterwards.  When the scan of the database
    was swallowed as unavailable or yielded no pairs, that batch is the
    sentinel alone: nothing but the marker 1 is cached, and the next
    [autofill] returns at the sentinel check without a scan.  (The marker
    is 1 whenever the scan yields no pair for a registry key that is
    itself named "autofilled".) *)
Theorem autofill_writes_sentinel self w :
  timeout_set (_autofill_timeout self) = true →
  is_set (_cache self) = true →
  truthy (cached w (full_cachekey self)) = false →
  let o := exec (autofill self) w in
  let batch := autofill_batch self (scan_pairs self w) in
  let returns_at_sentinel :=
    exec (autofill self) (final o) =
    Outcome (Ok tt) (final o) [enter_autofill; cache_get (full_cachekey self)] in
  res o = Ok tt ∧
  List.filter is_cache_write (trace o) =
    [cache_set_many batch (_autofill_timeout self)] ∧
  is_Some (batch !! full_cachekey self) ∧
  cache (final o) !! full_cachekey self = batch !! full_cachekey self ∧
  ((is_Some (db_fault w) ∨ scan_pairs self w = []) →
     batch = {[ full_cachekey self := PInt 1 ]} ∧
     cache (final o) = <[ full_cachekey self := PInt 1 ]> (cache w) ∧
     returns_at_sentinel) ∧
  ((∀ v, (_autofill_cachekey, v) ∉ scan_pairs self w) →
     cache (final o) !! full_cachekey self = Some (PInt 1) ∧ returns_at_sentinel).
Proof.
  intros Ht Hc Hm. cbv zeta. rewrite (exec_autofill_cold self w Ht Hc Hm).
  cbv zeta. cbn [res final trace].
  set (batch := autofill_batch self (scan_pairs self w)).
  pose proof (autofill_batch_sentinel_some self (scan_pairs self w)) as [v Hv].
  fold batch in Hv.
  assert (cache (set_cache w (batch ∪ cache w)) !! full_cachekey self
          = batch !! full_cachekey self) as Hlk.
  { simpl. rewrite Hv. by apply lookup_union_Some_l. }
  assert (∀ x, batch !! full_cachekey self = Some (PInt 1) → x = set_cache w (batch ∪ cache w) →
          exec (autofill self) x =
          Outcome (Ok tt) x [enter_autofill; cache_get (full_cachekey self)]) as Hnext.
  { intros x H1 ->. apply exec_autofill_warm; [done..|].
    unfold cached. by rewrite Hlk, H1. }
  repeat split.
  - unfold scan_trace. by destruct (CONFIG self).
  - by exists v.
  - exact Hlk.
  - destruct H as [[f Hf]|Hnil]; subst batch;
      [by rewrite (scan_pairs_unavailable _ _ _ Hf)|by rewrite Hnil].
  - simpl. f_equal.
    assert (batch = {[ full_cachekey self := PInt 1 ]}) as ->.
    { destruct H as [[f Hf]|Hnil]; subst batch;
        [by rewrite (scan_pairs_unavailable _ _ _ Hf)|by rewrite Hnil]. }
    by rewrite insert_union_singleton_l.
  - apply Hnext; [|done].
    assert (batch = {[ full_cachekey self := PInt 1 ]}) as ->.
    { destruct H as [[f Hf]|Hnil]; subst batch;
        [by rewrite (scan_pairs_unavailable _ _ _ Hf)|by rewrite Hnil]. }
    apply lookup_singleton_eq.
  - rewrite Hlk. by apply autofill_batch_sentinel.
  - apply Hnext; [|done]. by apply autofill_batch_sentinel.
Qed.

Lemma autofill_writes_sentinel_witness :
  timeout_set (_autofill_timeout site) = true ∧
  is_set (_cache site) = true ∧
  truthy (cached down (full_cachekey site)) = false ∧
  cache (final (exec (autofill site) down)) =
    <[ full_cachekey site := PInt 1 ]> (cache down).
Proof.
  assert (timeout_set (_autofill_timeout site) = true) as H1 by reflexivity.
  assert (is_set (_cache site) = true) as H2 by reflexivity.
  assert (truthy (cached down (full_cachekey site)) = false) as H3
    by (vm_compute; reflexivity).
  split; [exact H1|]. split; [exact H2|]. split; [exact H3|].
  destruct (autofill_writes_sentinel site down H1 H2 H3) as (_ & _ & _ & _ & H & _).
  apply H. left. by eexists.
Defined.

(** C10 -- Absent-marker conflation in [get], as the code has it.  For a
    key other than the sentinel's name "autofilled" that the cache does
    not resolve (no entry, or a cached None): [get] returns None both
    when the key has no record and when its record holds None; the cached
    None counts as a miss, so that [get] enters [autofill] (when a cache
    is configured) and looks the key up in the database; and afterwards
    the cache still does not resolve the key, so the next [get] does the
    same again. *)
Theorem get_conflates_absent self key w :
  key ≠ _autofill_cachekey →
  cached w (add_prefix self key) = PNone →
  records (add_prefix self key) (rows w) = [] ∨
  records (add_prefix self key) (rows w) = [Row (add_prefix self key) PNone] →
  let o := exec (get self key) w in
  let pk := add_prefix self key in
  res o = Ok PNone ∧
  (∃ before, List.filter is_db_call (trace o) = before ++ [db_get pk]) ∧
  (is_set (_cache self) = true → count is_enter_autofill (trace o) = 1) ∧
  cached (final o) pk = PNone ∧ rows (final o) = rows w.
Proof.
  intros Hkey Hc Hrec. cbv zeta.
  destruct (exec_get_unresolved self key w Hkey Hc Hrec) as (H1 & H2 & H3 & H4 & H5).
  split; [exact H1|]. split; [eexists; exact H2|].
  split; [|by split]. intros Hcache. by rewrite H3, Hcache.
Qed.

Lemma get_conflates_absent_witness :
  "C" ≠ _autofill_cachekey ∧
  cached partly_cached (add_prefix site "C") = PNone ∧
  res (exec (get site "C") partly_cached) = Ok PNone.
Proof.
  assert ("C" ≠ _autofill_cachekey) as H1 by discriminate.
  assert (cached partly_cached (add_prefix site "C") = PNone) as H2
    by (vm_compute; reflexivity).
  split; [discriminate|]. split; [exact H2|].
  destruct (get_conflates_absent site "C" partly_cached H1 H2
              (or_introl eq_refl)) as (H & _).
  exact H.
Defined.

(** C10, as stated, fails in two ways, in both of which the key has no
    record and [get] does not return None.  [get] serves the cache
    first: a value cached for the key is returned.  And the sentinel
    shares the key space: for the key named "autofilled", with nothing
    cached at all, [get] returns the marker that its own [autofill] call
    has just put into the cache. *)
Lemma get_without_record_not_absent :
  (records (add_prefix site "A") (rows (World {[ "A" := PInt 1 ]} None [])) = [] ∧
   res (exec (get site "A") (World {[ "A" := PInt 1 ]} None [])) = Ok (PInt 1)) ∧
  (cache fresh = ∅ ∧ records (add_prefix site "autofilled") (rows fresh) = [] ∧
   res (exec (get site "autofilled") fresh) = Ok (PInt 1)).
Proof. vm_compute. done. Qed.

(* ================================================================ *)
(** * Further properties of the backend *)

(** ** Keys and the table *)

Lemma records_not_in k rs : k ∉ map Constance.key rs → records k rs = [].
Proof.
  unfold records. induction rs as [|r rs IH]; [done|]. intros Hk. simpl in *.
  apply not_elem_of_cons in Hk as [Hne Hk].
  unfold has_key at 1. destruct (String.eqb_spec (Constance.key r) k); [done|].
  by apply IH.
Qed.

Lemma records_in k rs r : r ∈ rs → Constance.key r = k → r ∈ records k rs.
Proof.
  intros Hin Hk. unfold records. apply list_elem_of_In, filter_In.
  split; [by apply list_elem_of_In|]. unfold has_key. by apply String.eqb_eq.
Qed.

Lemma records_elem k rs r : r ∈ records k rs → r ∈ rs ∧ Constance.key r = k.
Proof.
  intros H. split; [|by apply (records_key k rs)].
  unfold records in H. apply list_elem_of_In, filter_In in H as [H _].
  by apply list_elem_of_In.
Qed.

(** Under the uniqueness constraint a key has no record or one. *)
Lemma unique_keys_records k rs :
  unique_keys rs → records k rs = [] ∨ ∃ v, records k rs = [Row k v].
Proof.
  unfold unique_keys. induction rs as [|r rs IH]; [by left|].
  simpl. intros Hnd. apply NoDup_cons in Hnd as [Hnotin Hnd].
  unfold records. cbn [List.filter]. fold (records k rs).
  destruct (has_key k r) eqn:E.
  - right. exists (Constance.value r). unfold has_key in E.
    apply String.eqb_eq in E. subst k.
    rewrite (records_not_in _ _ Hnotin). by destruct r.
  - by apply IH.
Qed.

Lemma update_rows_keys r rs :
  map Constance.key (update_rows r rs) = map Constance.key rs.
Proof.
  unfold update_rows. induction rs as [|x rs IH]; [done|]. simpl.
  rewrite IH. f_equal. unfold has_key.
  destruct (String.eqb_spec (Constance.key x) (Constance.key r)); done.
Qed.

Lemma records_update_other k r rs :
  k ≠ Constance.key r → records k (update_rows r rs) = records k rs.
Proof.
  intros Hk. unfold records, update_rows. induction rs as [|x rs IH]; [done|].
  cbn [map List.filter]. rewrite IH.
  destruct (has_key (Constance.key r) x) eqn:E; [|done].
  unfold has_key in *. apply String.eqb_eq in E.
  assert (String.eqb (Constance.key r) k = false) as Hr
    by (apply String.eqb_neq; congruence).
  by rewrite E, Hr.
Qed.

Lemma records_create_other k pk v rs :
  k ≠ pk → records k (rs ++ [Row pk v]) = records k rs.
Proof.
  intros Hk. unfold records. rewrite List.filter_app. simpl.
  unfold has_key at 2. simpl.
  destruct (String.eqb_spec pk k); [done|]. by rewrite app_nil_r.
Qed.

Lemma unique_keys_create pk v rs :
  unique_keys rs → records pk rs = [] → unique_keys (rs ++ [Row pk v]).
Proof.
  unfold unique_keys. intros Hnd Hrec. rewrite map_app. simpl.
  apply NoDup_app. split; [done|]. split; [|apply NoDup_singleton].
  intros k Hk Hpk. apply list_elem_of_singleton in Hpk as ->.
  apply list_elem_of_In, in_map_iff in Hk as (r & Hkey & Hin).
  apply list_elem_of_In in Hin.
  pose proof (records_in pk rs r Hin Hkey) as H. rewrite Hrec in H.
  by apply elem_of_nil in H.
Qed.

(** The ways a [set] can go on an available database, by the number of
    records of its key. *)
Lemma exec_set_cases self key value w :
  db_fault w = None →
  let pk := add_prefix self key in
  let o := exec (set self key value) w in
  let refreshed w1 :=
    if is_set (_cache self) then set_cache w1 (<[pk:=value]> (cache w1)) else w1 in
  (records pk (rows w) = [] ∧ res o = Ok tt ∧
   final o = refreshed (set_rows w (rows w ++ [Row pk value])) ∧
   List.filter is_signal (trace o) = [signal_send pk PNone value] ∧
   List.filter is_db_write (trace o) = [db_create pk value]) ∨
  (∃ r, records pk (rows w) = [r] ∧ res o = Ok tt ∧
   final o = refreshed (final (exec (post_save self false)
                                (set_rows w (update_rows (Row pk value) (rows w))))) ∧
   List.filter is_signal (trace o) = [signal_send pk (Constance.value r) value] ∧
   List.filter is_db_write (trace o) = [db_save (Row pk value)]) ∨
  (2 ≤ length (records pk (rows w)) ∧
   o = Outcome (Err MultipleObjectsReturned) w [db_get pk]).
Proof.
  intros Hf. cbv zeta.
  destruct (records (add_prefix self key) (rows w)) as [|r [|r' l]] eqn:Hrec.
  - left. rewrite (exec_set_create self key value w Hf Hrec). cbv zeta.
    cbn [res final trace]. by destruct (is_set (_cache self)).
  - right. left. exists r.
    rewrite (exec_set_update self key value w r Hf Hrec). cbv zeta.
    cbn [res final trace]. receiver_frame.
    rewrite !List.filter_app, Hsig, Hwr. by destruct (is_set (_cache self)).
  - right. right. rewrite (exec_set_duplicates self key value w r r' l Hf Hrec).
    split; [simpl; lia|done].
Qed.

(** ** [set]: frame, uniqueness, composition *)

(** What a [set] that went through leaves for its key. *)
Lemma set_result self key value w :
  db_fault w = None →
  res (exec (set self key value) w) = Ok tt →
  let w' := final (exec (set self key value) w) in
  records (add_prefix self key) (rows w') = [Row (add_prefix self key) value] ∧
  db_fault w' = None ∧
  (is_set (_cache self) = true → cache w' !! add_prefix self key = Some value).
Proof.
  intros Hf Hres. cbv zeta.
  destruct (exec_set_cases self key value w Hf)
    as [(Hrec & _ & -> & _)|[(r & Hrec & _ & -> & _)|(_ & E)]].
  - destruct (is_set (_cache self)); cbn [rows cache db_fault set_cache set_rows];
      (split; [by apply records_after_create|]); (split; [done|]); intros; [|done].
    apply lookup_insert_eq.
  - receiver_frame.
    destruct (is_set (_cache self)); cbn [rows cache db_fault set_cache set_rows];
      rewrite Hrows, Hfault; cbn [rows db_fault set_rows];
      (split; [by apply records_after_update with (r := r)|]); (split; [done|]);
      intros; [|done].
    apply lookup_insert_eq.
  - by rewrite E in Hres.
Qed.

Lemma rows_refreshed self pk value w1 :
  rows (if is_set (_cache self) then set_cache w1 (<[pk:=value]> (cache w1)) else w1)
  = rows w1.
Proof. by destruct (is_set (_cache self)). Qed.

(** On a table with unique keys [set] returns normally and keeps the
    keys unique. *)
Lemma set_total self key value w :
  unique_keys (rows w) →
  res (exec (set self key value) w) = Ok tt ∧
  unique_keys (rows (final (exec (set self key value) w))) ∧
  db_fault (final (exec (set self key value) w)) = db_fault w.
Proof.
  intros Hu. destruct (db_fault w) as [f|] eqn:Hf.
  { by rewrite (exec_set_unavailable self key value w f Hf). }
  destruct (exec_set_cases self key value w Hf)
    as [(Hrec & -> & -> & _)|[(r & Hrec & -> & -> & _)|(Hlen & _)]].
  - rewrite rows_refreshed. split; [done|]. split; [by apply unique_keys_create|].
    by destruct (is_set (_cache self)).
  - rewrite rows_refreshed. receiver_frame. rewrite Hrows. split; [done|].
    split; [|destruct (is_set (_cache self)); cbn [db_fault set_cache]; by rewrite Hfault].
    unfold unique_keys. cbn [rows set_rows]. by rewrite update_rows_keys.
  - destruct (unique_keys_records (add_prefix self key) (rows w) Hu) as [E|[v E]];
      rewrite E in Hlen; simpl in Hlen; lia.
Qed.

(** X2 -- On a table that satisfies the uniqueness constraint [set] never
    raises, whether the database is available or not, and the table
    satisfies the constraint afterwards; it grows by one record at most. *)
Theorem set_keeps_unique_keys self key value w :
  unique_keys (rows w) →
  let o := exec (set self key value) w in
  res o = Ok tt ∧ unique_keys (rows (final o)) ∧
  length (rows w) ≤ length (rows (final o)) ≤ S (length (rows w)).
Proof.
  intros Hu. cbv zeta. destruct (db_fault w) as [f|] eqn:Hf.
  { rewrite (exec_set_unavailable self key value w f Hf). cbn [res final].
    split; [done|]. split; [done|lia]. }
  destruct (exec_set_cases self key value w Hf)
    as [(Hrec & -> & -> & _)|[(r & Hrec & -> & -> & _)|(Hlen & _)]].
  - split; [done|]. rewrite rows_refreshed. cbn [rows set_rows].
    split; [by apply unique_keys_create|]. rewrite length_app. simpl. lia.
  - split; [done|]. rewrite rows_refreshed. receiver_frame. rewrite Hrows.
    cbn [rows set_rows].
    split; [unfold unique_keys; by rewrite update_rows_keys|].
    unfold update_rows. rewrite length_map. lia.
  - destruct (unique_keys_records (add_prefix self key) (rows w) Hu) as [E|[v E]];
      rewrite E in Hlen; simpl in Hlen; lia.
Qed.

Lemma set_keeps_unique_keys_witness :
  unique_keys (rows partly_cached) ∧
  unique_keys (rows (final (exec (set site "C" (PInt 3)) partly_cached))).
Proof.
  assert (unique_keys (rows partly_cached)) as H
    by (apply (bool_decide_unpack _); vm_compute; reflexivity).
  split; [exact H|].
  destruct (set_keeps_unique_keys site "C" (PInt 3) partly_cached H) as (_ & Hu & _).
  exact Hu.
Defined.

(** X3 -- Two [set] of one key in a row: the second updates the record in
    place (no second record, no creation), its signal carries the first
    value as the old value, and record and cache entry hold the second
    value. *)
Theorem set_overwrites_set self key v1 v2 w :
  db_fault w = None → unique_keys (rows w) →
  let o1 := exec (set self key v1) w in
  let o2 := exec (set self key v2) (final o1) in
  let pk := add_prefix self key in
  res o2 = Ok tt ∧
  List.filter is_signal (trace o2) = [signal_send pk v1 v2] ∧
  List.filter is_db_write (trace o2) = [db_save (Row pk v2)] ∧
  records pk (rows (final o2)) = [Row pk v2] ∧
  length (rows (final o2)) = length (rows (final o1)) ∧
  (is_set (_cache self) = true → cache (final o2) !! pk = Some v2).
Proof.
  intros Hf Hu. cbv zeta.
  destruct (set_total self key v1 w Hu) as (Hres1 & Hu1 & _).
  destruct (set_result self key v1 w Hf Hres1) as (Hrec1 & Hf1 & _).
  set (w1 := final (exec (set self key v1) w)) in *.
  destruct (set_total self key v2 w1 Hu1) as (Hres2 & _ & _).
  destruct (set_result self key v2 w1 Hf1 Hres2) as (Hrec2 & _ & Hc2).
  split; [done|].
  destruct (exec_set_cases self key v2 w1 Hf1)
    as [(Hrec & _)|[(r & Hrec & _ & Hfin & Hsig & Hwr)|(Hlen & _)]].
  - by rewrite Hrec in Hrec1.
  - rewrite Hrec1 in Hrec. injection Hrec as <-.
    split; [exact Hsig|]. split; [exact Hwr|]. split; [exact Hrec2|].
    split; [|exact Hc2]. rewrite Hfin, rows_refreshed. receiver_frame.
    rewrite Hrows. cbn [rows set_rows]. unfold update_rows. by rewrite length_map.
  - rewrite Hrec1 in Hlen. simpl in Hlen. lia.
Qed.

Lemma set_overwrites_set_witness :
  db_fault fresh = None ∧ unique_keys (rows fresh) ∧
  List.filter is_signal
    (trace (exec (set site "A" (PInt 2)) (final (exec (set site "A" (PInt 1)) fresh))))
  = [signal_send (add_prefix site "A") (PInt 1) (PInt 2)].
Proof.
  assert (unique_keys (rows fresh)) as H by constructor.
  split; [reflexivity|]. split; [exact H|].
  destruct (set_overwrites_set site "A" (PInt 1) (PInt 2) fresh eq_refl H) as (_ & E & _).
  exact E.
Defined.

(** ** [add_prefix] and [mget] *)

(** X4 -- The key dictionary of [mget] (line 73) is a round trip: it maps
    the prefixed form of every requested key back to that key and holds
    nothing else; and [add_prefix] never sends two keys to one cache key. *)
Theorem prefixed_keys_round_trip self keys pk k :
  (prefixed_keys self keys !! pk = Some k ↔ k ∈ keys ∧ pk = add_prefix self k) ∧
  (∀ k', add_prefix self k = add_prefix self k' → k = k').
Proof.
  split; [split|].
  - apply prefixed_keys_inv.
  - intros [Hin ->]. by apply prefixed_keys_elem.
  - apply add_prefix_inj.
Qed.

(** X5 -- [mget] never raises -- the subscripts [keys[...]] of lines 85 and
    93 cannot fail -- and what it yields is sound: every pair is for a
    requested key, and its value is the one the cache holds for the key
    (only with a cache and [fallback]) or the value of a record of the
    key in the available database.  A requested key with neither is
    left out. *)
Theorem mget_sound self keys fallback w :
  let o := exec (mget self keys fallback) w in
  ∃ out, res o = Ok out ∧
    (∀ k v, (k, v) ∈ out →
       k ∈ keys ∧
       ((is_set (_cache self) && fallback = true ∧
         cache (final o) !! add_prefix self k = Some v) ∨
        (db_fault w = None ∧ Row (add_prefix self k) v ∈ rows w))) ∧
    (∀ k, cache (final o) !! add_prefix self k = None →
          (∀ v, Row (add_prefix self k) v ∉ rows w) → ∀ v, (k, v) ∉ out).
Proof.
  cbv zeta.
  cut (∃ out, res (exec (mget self keys fallback) w) = Ok out ∧
         ∀ k v, (k, v) ∈ out →
           k ∈ keys ∧
           ((is_set (_cache self) && fallback = true ∧
             cache (final (exec (mget self keys fallback) w)) !! add_prefix self k = Some v) ∨
            (db_fault w = None ∧ Row (add_prefix self k) v ∈ rows w))).
  { intros (out & Hres & Hsound). exists out. split; [done|]. split; [done|].
    intros k Hc Hr v Hin. destruct (Hsound k v Hin) as (_ & [[_ H]|[_ H]]).
    - by rewrite Hc in H.
    - by apply Hr in H. }
  assert (∀ kd rs k v, (∀ pk x, kd !! pk = Some x → x ∈ keys ∧ pk = add_prefix self x) →
            (k, v) ∈ stored_pairs kd rs → k ∈ keys ∧ Row (add_prefix self k) v ∈ rs)
    as Hstored.
  { intros kd rs k v Hkd Hin.
    apply elem_of_stored_pairs in Hin as ([rk rv] & Hr & Hk & Hv). simpl in *.
    apply Hkd in Hk as [Hk ->]. by subst. }
  destruct keys as [|k0 keys'] eqn:Hkeys.
  { rewrite exec_mget_nil. eexists. split; [done|]. intros k v H.
    by apply elem_of_nil in H. }
  rewrite <- Hkeys in *. assert (keys ≠ []) as Hne by by rewrite Hkeys. clear Hkeys.
  destruct (is_set (_cache self) && fallback) eqn:Hcf.
  - apply andb_true_iff in Hcf as [Hc ->].
    rewrite (exec_mget_cached self keys w Hc Hne). cbv zeta. cbn [res final].
    set (kd := prefixed_keys self keys).
    set (w1 := if negb _ then _ else w).
    assert (rows w1 = rows w ∧ db_fault w1 = db_fault w) as [Hrows Hf].
    { subst w1. destruct (negb _); [|done].
      destruct (autofill_total self w) as (_ & -> & -> & _). done. }
    rewrite Hf, Hrows. eexists. split; [done|]. intros k v Hin.
    assert ((k, v) ∈ hit_pairs kd (get_many_reply (dom kd) w1) ∨
            (db_fault w = None ∧
             (k, v) ∈ stored_pairs
                        (filter (λ kv : string * string,
                                   get_many_reply (dom kd) w1 !! kv.1 = None) kd)
                        (rows w))) as [H|[Hdb H]].
    { destruct (bool_decide _); [by left|].
      apply elem_of_app in Hin as [H|H]; [by left|].
      destruct (db_fault w); [by apply elem_of_nil in H|]. right. done. }
    + apply elem_of_hit_pairs in H as (pk & Hv & Hk).
      apply prefixed_keys_inv in Hk as [Hk ->].
      apply map_lookup_filter_Some in Hv as [Hv _].
      split; [done|]. left. done.
    + apply Hstored in H as [Hk Hr].
      * split; [done|]. right. done.
      * intros pk x Hx. apply map_lookup_filter_Some in Hx as [Hx _].
        by apply prefixed_keys_inv in Hx.
  - rewrite (exec_mget_uncached self keys fallback w Hcf Hne). cbv zeta.
    cbn [res final]. eexists. split; [done|]. intros k v Hin.
    destruct (db_fault w); [by apply elem_of_nil in Hin|].
    apply Hstored in Hin as [Hk Hr].
    + split; [done|]. right. done.
    + intros pk x Hx. by apply prefixed_keys_inv in Hx.
Qed.

(** X6 -- With [fallback=False], [mget] bypasses the cache: it makes no
    cache call and no [autofill], leaves the world as it is, and on an
    available database yields exactly the pairs of the records of the
    requested keys. *)
Theorem mget_without_fallback self keys w :
  let o := exec (mget self keys false) w in
  final o = w ∧
  count is_cache_call (trace o) = 0 ∧ count is_enter_autofill (trace o) = 0 ∧
  ∃ out, res o = Ok out ∧
    (db_fault w = None →
     ∀ k v, (k, v) ∈ out ↔ k ∈ keys ∧ Row (add_prefix self k) v ∈ rows w).
Proof.
  cbv zeta. destruct keys as [|k0 keys'] eqn:Hkeys.
  { rewrite exec_mget_nil. cbn [res final trace]. repeat (split; [done|]).
    eexists. split; [done|]. intros _ k v. split.
    - intros H. by apply elem_of_nil in H.
    - intros [H _]. by apply elem_of_nil in H. }
  rewrite <- Hkeys in *. assert (keys ≠ []) as Hne by by rewrite Hkeys. clear Hkeys.
  rewrite (exec_mget_uncached self keys false w) by (by rewrite ?andb_false_r).
  cbv zeta. cbn [res final trace]. repeat (split; [done|]).
  eexists. split; [done|]. intros -> k v.
  rewrite elem_of_stored_pairs. split.
  - intros ([rk rv] & Hr & Hk & Hv). simpl in *.
    apply prefixed_keys_inv in Hk as [Hk ->]. by subst.
  - intros [Hk Hr]. exists (Row (add_prefix self k) v). split; [done|].
    split; [|done]. by apply prefixed_keys_elem.
Qed.

Lemma mget_sound_witness :
  ∃ out, res (exec (mget site ["A"; "C"] true) partly_cached) = Ok out ∧
         ∀ v, ("C", v) ∉ out.
Proof.
  destruct (mget_sound site ["A"; "C"] true partly_cached) as (out & Hres & _ & Hleft).
  exists out. split; [exact Hres|].
  apply Hleft.
  - vm_compute. reflexivity.
  - intros v H. apply list_elem_of_In in H. simpl in H.
    destruct H as [E|[E|[]]]; discriminate E.
Defined.

Lemma mget_without_fallback_witness :
  db_fault partly_cached = None ∧
  ∃ out, res (exec (mget site ["A"; "B"] false) partly_cached) = Ok out ∧
         ("B", PInt 2) ∈ out.
Proof.
  split; [reflexivity|].
  destruct (mget_without_fallback site ["A"; "B"] partly_cached)
    as (_ & _ & _ & out & Hres & H).
  exists out. split; [exact Hres|].
  apply (H eq_refl). split; [right; by left|]. right. by left.
Defined.

Lemma stored_pairs_singleton pk k rs :
  stored_pairs {[ pk := k ]} rs = map (λ r, (k, Constance.value r)) (records pk rs).
Proof.
  unfold stored_pairs, records. induction rs as [|r rs IH]; [done|].
  cbn [omap list_omap List.filter]. unfold has_key at 1.
  destruct (String.eqb_spec (Constance.key r) pk) as [->|N].
  - rewrite lookup_singleton_eq. cbn [mbind option_bind map]. f_equal. exact IH.
  - rewrite lookup_singleton_ne by done. cbn [mbind option_bind]. exact IH.
Qed.

Lemma get_many_reply_singleton pk v w :
  cache w !! pk = Some v → get_many_reply {[ pk ]} w = {[ pk := v ]}.
Proof.
  intros Hc. unfold get_many_reply. apply map_eq. intros k.
  destruct (decide (k = pk)) as [->|N].
  - rewrite lookup_singleton_eq. apply map_lookup_filter_Some. split; [done|].
    simpl. set_solver.
  - rewrite lookup_singleton_ne by done. apply map_lookup_filter_None.
    right. intros x _. simpl. set_solver.
Qed.

(** X7 -- Read-after-write through [mget]: after a [set] on an available
    database with unique keys, [mget] of that one key yields exactly the
    pair of the key (as the caller gave it) and the value written --
    from the cache when one is configured, from the record otherwise. *)
Theorem mget_after_set self key value w :
  db_fault w = None → unique_keys (rows w) →
  let o := exec (set self key value) w in
  res (exec (mget self [key] true) (final o)) = Ok [(key, value)].
Proof.
  intros Hf Hu. cbv zeta.
  destruct (set_total self key value w Hu) as (Hres & _ & _).
  destruct (set_result self key value w Hf Hres) as (Hrec & Hf' & Hc).
  set (w' := final (exec (set self key value) w)) in *.
  set (pk := add_prefix self key) in *.
  assert (prefixed_keys self [key] = {[ pk := key ]}) as Hkd.
  { unfold prefixed_keys. simpl. by rewrite insert_empty. }
  destruct (is_set (_cache self)) eqn:Hcache.
  - rewrite (exec_mget_cached self [key] w' Hcache) by done. cbv zeta. cbn [res].
    rewrite Hkd, dom_singleton_L.
    rewrite (get_many_reply_singleton pk value w' (Hc eq_refl)).
    rewrite !map_size_singleton. cbn [Nat.eqb negb].
    rewrite (get_many_reply_singleton pk value w' (Hc eq_refl)).
    assert (filter (λ kv : string * string,
                      ({[pk := value]} : gmap string pyval) !! kv.1 = None)
                   ({[pk := key]} : gmap string string) = ∅) as ->.
    { apply map_empty. intros k. apply map_lookup_filter_None.
      destruct (decide (k = pk)) as [->|N].
      - right. intros x _. simpl. by rewrite lookup_singleton_eq.
      - left. by rewrite lookup_singleton_ne. }
    rewrite bool_decide_eq_true_2 by done.
    unfold hit_pairs. rewrite map_to_list_singleton. simpl.
    by rewrite lookup_singleton_eq.
  - rewrite (exec_mget_uncached self [key] true w') by (by rewrite ?Hcache).
    cbv zeta. cbn [res]. rewrite Hf', Hkd, stored_pairs_singleton.
    fold pk. by rewrite Hrec.
Qed.

Lemma mget_after_set_witness :
  db_fault fresh = None ∧ unique_keys (rows fresh) ∧
  res (exec (mget site ["A"] true) (final (exec (set site "A" (PInt 5)) fresh)))
  = Ok [("A", PInt 5)].
Proof.
  assert (unique_keys (rows fresh)) as H by constructor.
  split; [reflexivity|]. split; [exact H|].
  exact (mget_after_set site "A" (PInt 5) fresh eq_refl H).
Defined.

(** ** [autofill]: what it caches and what it leaves *)

Lemma autofill_batch_member self pairs k v :
  (k, v) ∈ pairs → is_Some (autofill_batch self pairs !! add_prefix self k).
Proof.
  unfold autofill_batch. generalize ({[full_cachekey self := PInt 1]} : gmap string pyval).
  induction pairs as [|[k' v'] pairs IH]; intros d Hin; [by apply elem_of_nil in Hin|].
  simpl. apply elem_of_cons in Hin as [E|Hin]; [|by apply IH].
  injection E as <- <-.
  assert (∀ l (d : gmap string pyval), is_Some (d !! add_prefix self k) →
            is_Some (foldl (λ d kv, <[add_prefix self kv.1 := kv.2]> d) d l
                       !! add_prefix self k)) as Hkeep.
  { induction l as [|[a b] l IHl]; intros d' Hd; simpl; [done|].
    apply IHl. destruct (decide (add_prefix self a = add_prefix self k)) as [->|N].
    - rewrite lookup_insert_eq. by eexists.
    - by rewrite lookup_insert_ne. }
  apply Hkeep. rewrite lookup_insert_eq. by eexists.
Qed.

(** The batch holds the record's value for a registry key with one
    record, and nothing for a cache key that is neither the sentinel's
    nor that of a registry key with a record. *)
Lemma autofill_batch_record self w key v :
  db_fault w = None → key ∈ CONFIG self → key ≠ _autofill_cachekey →
  records (add_prefix self key) (rows w) = [Row (add_prefix self key) v] →
  autofill_batch self (scan_pairs self w) !! add_prefix self key = Some v.
Proof.
  intros Hf Hin Hkey Hrec.
  assert ((key, v) ∈ scan_pairs self w) as Hpair.
  { unfold scan_pairs. destruct (CONFIG self) as [|k0 l] eqn:E;
      [by apply elem_of_nil in Hin|]. rewrite Hf, <- E. rewrite <- E in Hin.
    apply elem_of_stored_pairs. exists (Row (add_prefix self key) v).
    split; [|split; [by apply prefixed_keys_elem|done]].
    apply (records_elem (add_prefix self key)). rewrite Hrec. by left. }
  destruct (autofill_batch_member self _ _ _ Hpair) as [x Hx]. rewrite Hx. f_equal.
  apply autofill_batch_inv in Hx as [[E _]|(k' & Hk' & E)].
  - by apply add_prefix_inj in E.
  - apply add_prefix_inj in E. subst k'.
    apply elem_of_scan_pairs in Hk' as [_ Hrow].
    by apply (records_singleton_value _ _ _ _ Hrec).
Qed.

Lemma autofill_batch_outside self w k :
  k ≠ full_cachekey self →
  (∀ key v, key ∈ CONFIG self → k = add_prefix self key → Row k v ∉ rows w) →
  autofill_batch self (scan_pairs self w) !! k = None.
Proof.
  intros Hk Hout.
  destruct (autofill_batch self (scan_pairs self w) !! k) as [v|] eqn:E; [|done].
  apply autofill_batch_inv in E as [[? _]|(key & Hpair & ->)]; [done|].
  apply elem_of_scan_pairs in Hpair as [Hin Hrow]. by apply (Hout key v) in Hrow.
Qed.

(** X8 -- A warm-up fills the cache from the table: when [autofill] runs its
    scan (cache configured, nonzero window, no sentinel yet) on an
    available database, then afterwards the cache holds, for every
    registry key other than "autofilled" that has a record, the value of
    that record -- replacing whatever was cached for it. *)
Theorem autofill_warms self w key v :
  timeout_set (_autofill_timeout self) = true →
  is_set (_cache self) = true →
  truthy (cached w (full_cachekey self)) = false →
  db_fault w = None →
  key ∈ CONFIG self → key ≠ _autofill_cachekey →
  records (add_prefix self key) (rows w) = [Row (add_prefix self key) v] →
  cache (final (exec (autofill self) w)) !! add_prefix self key = Some v.
Proof.
  intros Ht Hc Hm Hf Hin Hkey Hrec.
  rewrite (exec_autofill_cold self w Ht Hc Hm). cbv zeta. cbn [final cache set_cache].
  apply lookup_union_Some_l. by apply autofill_batch_record.
Qed.

Lemma autofill_warms_witness :
  timeout_set (_autofill_timeout site) = true ∧
  truthy (cached stored_only (full_cachekey site)) = false ∧
  records (add_prefix site "B") (rows stored_only) = [Row (add_prefix site "B") (PInt 2)] ∧
  cache (final (exec (autofill site) stored_only)) !! add_prefix site "B" = Some (PInt 2).
Proof.
  assert (truthy (cached stored_only (full_cachekey site)) = false) as Hm
    by (vm_compute; reflexivity).
  assert ("B" ∈ CONFIG site) as Hin by (right; by left).
  split; [reflexivity|]. split; [exact Hm|]. split; [reflexivity|].
  apply (autofill_warms site stored_only "B" (PInt 2) eq_refl eq_refl Hm eq_refl Hin);
    [discriminate|reflexivity].
Defined.

(** X9 -- [autofill] writes nothing else: whatever way it goes, a cache
    entry that is neither the sentinel's nor that of a registry key
    with a record is as it was -- in particular a stale entry of a
    registry key whose record is gone survives the warm-up. *)
Theorem autofill_leaves_other_entries self w k :
  k ≠ full_cachekey self →
  (∀ key v, key ∈ CONFIG self → k = add_prefix self key → Row k v ∉ rows w) →
  cache (final (exec (autofill self) w)) !! k = cache w !! k.
Proof.
  intros Hk Hout.
  destruct (autofill_cases self w) as [E|[[_ E]|(_ & _ & _ & E)]];
    rewrite E; cbn [final]; try done.
  cbn [cache set_cache]. apply lookup_union_r. by apply autofill_batch_outside.
Qed.

Lemma autofill_leaves_other_entries_witness :
  "A" ≠ full_cachekey site ∧
  cache (final (exec (autofill site) (World {[ "A" := PInt 9 ]} None [])))
    !! "A" = Some (PInt 9).
Proof.
  assert ("A" ≠ full_cachekey site) as H by discriminate.
  split; [exact H|].
  rewrite (autofill_leaves_other_entries site (World {[ "A" := PInt 9 ]} None []) "A" H).
  - vm_compute. reflexivity.
  - intros key v _ _ Hrow. by apply elem_of_nil in Hrow.
Defined.

(** ** [get]: hits, population, and what reads leave alone *)

Lemma exec_get_hit self key w :
  is_set (_cache self) = true →
  cached w (add_prefix self key) ≠ PNone →
  exec (get self key) w =
  Outcome (Ok (cached w (add_prefix self key))) w [cache_get (add_prefix self key)].
Proof.
  intros Hc Hv. rewrite get_phases, exec_bind, exec_get_cache_phase. unfold and_then.
  rewrite Hc.
  assert (is_None (cached w (add_prefix self key)) = false) as Hn
    by by destruct (cached w (add_prefix self key)).
  rewrite Hn. cbn [res final trace]. rewrite exec_get_db_phase, Hn. done.
Qed.

(** X10 -- A cache hit is final: when the cache holds a value other than
    None for the key, [get] returns it after that one cache read -- no
    [autofill], no database query, nothing changed -- whatever the
    table holds for the key and whether or not the database is
    available. *)
Theorem get_cache_hit self key w :
  is_set (_cache self) = true →
  cached w (add_prefix self key) ≠ PNone →
  let o := exec (get self key) w in
  res o = Ok (cached w (add_prefix self key)) ∧ final o = w ∧
  trace o = [cache_get (add_prefix self key)] ∧
  count is_db_call (trace o) = 0 ∧ count is_enter_autofill (trace o) = 0.
Proof.
  intros Hc Hv. cbv zeta. rewrite (exec_get_hit self key w Hc Hv).
  by cbn [res final trace].
Qed.

Lemma get_cache_hit_witness :
  is_set (_cache site) = true ∧
  cached stale (add_prefix site "A") ≠ PNone ∧
  res (exec (get site "A") stale) = Ok (PInt 0).
Proof.
  assert (cached stale (add_prefix site "A") ≠ PNone) as H
    by (vm_compute; discriminate).
  split; [reflexivity|]. split; [exact H|].
  destruct (get_cache_hit site "A" stale eq_refl H) as (E & _).
  rewrite E. vm_compute. reflexivity.
Defined.

(** What [get] does in general: it never writes to the table, never
    sends a signal, makes at most two database queries, does not raise
    when the key has at most one record, and without a cache never
    calls the cache. *)
Lemma get_frame self key w :
  let o := exec (get self key) w in
  rows (final o) = rows w ∧ db_fault (final o) = db_fault w ∧
  count is_db_write (trace o) = 0 ∧ count is_signal (trace o) = 0 ∧
  count is_db_call (trace o) ≤ 2 ∧
  (length (records (add_prefix self key) (rows w)) ≤ 1 → ∃ v, res o = Ok v) ∧
  (is_set (_cache self) = false →
   count is_cache_call (trace o) = 0 ∧ count is_enter_autofill (trace o) = 0 ∧
   cache (final o) = cache w).
Proof.
  cbv zeta. set (pk := add_prefix self key).
  rewrite get_phases, exec_bind, exec_get_cache_phase. unfold and_then. fold pk.
  destruct (autofill_total self w) as (_ & Hr & Hfa & _ & _ & Hw & Hs & Hdb).
  assert (∀ w1 v, rows w1 = rows w → db_fault w1 = db_fault w →
            let o := exec (get_db_phase self pk v) w1 in
            rows (final o) = rows w ∧ db_fault (final o) = db_fault w ∧
            count is_db_write (trace o) = 0 ∧ count is_signal (trace o) = 0 ∧
            count is_db_call (trace o) ≤ 1 ∧
            (length (records pk (rows w)) ≤ 1 → ∃ x, res o = Ok x) ∧
            (is_set (_cache self) = false →
             count is_cache_call (trace o) = 0 ∧ count is_enter_autofill (trace o) = 0 ∧
             final o = w1)) as Hphase.
  { intros w1 v Hr1 Hf1. cbv zeta. rewrite exec_get_db_phase, Hf1, Hr1.
    assert (∀ (x : result pyval) c,
              is_db_write c = false → is_signal c = false → is_cache_call c = false →
              is_enter_autofill c = false →
              (length (records pk (rows w)) ≤ 1 → ∃ y, x = Ok y) →
              let o := Outcome x w1 [c] in
              rows (final o) = rows w ∧ db_fault (final o) = db_fault w ∧
              count is_db_write (trace o) = 0 ∧ count is_signal (trace o) = 0 ∧
              count is_db_call (trace o) ≤ 1 ∧
              (length (records pk (rows w)) ≤ 1 → ∃ y, res o = Ok y) ∧
              (is_set (_cache self) = false →
               count is_cache_call (trace o) = 0 ∧
               count is_enter_autofill (trace o) = 0 ∧ final o = w1)) as Hone.
    { intros x c H1 H2 H3 H4 H5. cbv zeta. cbn [res final trace].
      rewrite !count_cons, !count_nil, H1, H2, H3, H4.
      split; [done|]. split; [done|]. split; [done|]. split; [done|].
      split; [destruct (is_db_call c); lia|]. split; [done|]. done. }
    destruct (is_None v).
    2:{ cbn [res final trace]. rewrite !count_nil.
        split; [done|]. split; [done|]. split; [done|]. split; [done|].
        split; [lia|]. split; [by eexists|]. done. }
    destruct (db_fault w); [apply Hone; try done; by eexists|].
    destruct (records pk (rows w)) as [|r [|r' l]].
    - apply Hone; try done. by eexists.
    - destruct (is_set (_cache self)); [|apply Hone; try done; by eexists].
      cbn [res final trace]. rewrite !count_cons, !count_nil.
      cbn [is_db_write is_signal is_db_call perform].
      split; [by destruct (cache w1 !! pk)|].
      split; [by destruct (cache w1 !! pk)|].
      split; [done|]. split; [done|]. split; [lia|]. split; [by eexists|]. done.
    - apply Hone; try done. simpl. lia. }
  destruct (is_set (_cache self)) eqn:Hc.
  - destruct (is_None (cached w pk)); cbv zeta; cbn [res final trace].
    + destruct (Hphase (final (exec (autofill self) w))
                  (cached (final (exec (autofill self) w)) pk) Hr Hfa)
        as (H1 & H2 & H3 & H4 & H5 & H6 & _).
      destruct (exec (get_db_phase self pk _) _) as [r1 f1 t1]. cbn [res final trace] in *.
      split; [done|]. split; [done|].
      split; [count_calls; rewrite Hw, H3; lia|].
      split; [count_calls; rewrite Hs, H4; lia|].
      split; [count_calls; lia|]. split; [done|done].
    + destruct (Hphase w (cached w pk) eq_refl eq_refl)
        as (H1 & H2 & H3 & H4 & H5 & H6 & _).
      destruct (exec (get_db_phase self pk _) _) as [r1 f1 t1]. cbn [res final trace] in *.
      split; [done|]. split; [done|].
      split; [count_calls; lia|]. split; [count_calls; lia|].
      split; [count_calls; lia|]. split; [done|done].
  - cbn [res final trace].
    destruct (Hphase w PNone eq_refl eq_refl) as (H1 & H2 & H3 & H4 & H5 & H6 & H7).
    destruct (H7 eq_refl) as (H8 & H9 & H10).
    destruct (exec (get_db_phase self pk _) _) as [r1 f1 t1].
    cbn [res final trace app] in *.
    split; [done|]. split; [done|]. split; [done|]. split; [done|].
    split; [lia|]. split; [done|]. intros _. by subst.
Qed.

Lemma autofill_entry_of_record self w key v :
  key ≠ _autofill_cachekey →
  cache w !! add_prefix self key = None →
  records (add_prefix self key) (rows w) = [Row (add_prefix self key) v] →
  let c := cache (final (exec (autofill self) w)) !! add_prefix self key in
  c = None ∨ c = Some v.
Proof.
  intros Hkey Hc Hrec. cbv zeta.
  assert (add_prefix self key ≠ full_cachekey self) as Hpk.
  { intros E. by apply add_prefix_inj in E. }
  destruct (autofill_cases self w) as [E|[[_ E]|(_ & _ & _ & E)]];
    rewrite E; cbn [final]; [by left..|].
  cbn [cache set_cache].
  destruct (autofill_batch self (scan_pairs self w) !! add_prefix self key) as [x|] eqn:Hb.
  - right. rewrite (lookup_union_Some_l _ _ _ _ Hb). f_equal.
    apply autofill_batch_inv in Hb as [[? _]|(k & Hin & Ek)]; [done|].
    apply add_prefix_inj in Ek. subst k.
    apply elem_of_scan_pairs in Hin as [_ Hrow].
    by apply (records_singleton_value _ _ _ _ Hrec).
  - left. by rewrite lookup_union_r.
Qed.

(** X11 -- Read-through population: with a cache configured and the
    database available, [get] of a key (other than "autofilled") that
    has no cache entry but one record returns the record's value and
    leaves it in the cache under the prefixed key, the table untouched;
    a second [get] is then a cache hit -- its single call is the cache
    read -- unless the value is None. *)
Theorem get_populates_cache self key v w :
  is_set (_cache self) = true →
  db_fault w = None →
  key ≠ _autofill_cachekey →
  cache w !! add_prefix self key = None →
  records (add_prefix self key) (rows w) = [Row (add_prefix self key) v] →
  let o := exec (get self key) w in
  res o = Ok v ∧
  cache (final o) !! add_prefix self key = Some v ∧
  rows (final o) = rows w ∧
  (v ≠ PNone →
   exec (get self key) (final o) =
   Outcome (Ok v) (final o) [cache_get (add_prefix self key)]).
Proof.
  intros Hc Hf Hkey Hmiss Hrec. cbv zeta. set (pk := add_prefix self key) in *.
  assert (res (exec (get self key) w) = Ok v ∧
          cache (final (exec (get self key) w)) !! pk = Some v) as [Hres Hcache].
  { rewrite get_phases, exec_bind, exec_get_cache_phase. unfold and_then. fold pk.
    assert (cached w pk = PNone) as Hcn by (unfold cached; by rewrite Hmiss).
    rewrite Hc, Hcn. cbn [is_None]. cbv zeta. cbn [res final trace].
    destruct (autofill_total self w) as (_ & Hr & Hfa & _).
    set (w1 := final (exec (autofill self) w)) in *.
    rewrite exec_get_db_phase, Hfa, Hf, Hr, Hrec, Hc.
    destruct (autofill_entry_of_record self w key v Hkey Hmiss Hrec) as [E|E];
      fold pk in E; fold w1 in E; unfold cached; rewrite E.
    - change (is_None (default PNone None)) with true. cbv iota.
      cbn [res final trace perform Constance.value]. rewrite E. cbn [snd cache set_cache].
      split; [done|]. apply lookup_insert_eq.
    - change (default PNone (Some v)) with v.
      destruct (is_None v) eqn:Hn.
      + cbn [res final trace perform Constance.value]. rewrite E. cbn [snd].
        split; [done|]. exact E.
      + cbn [res final trace]. split; [done|]. exact E. }
  split; [exact Hres|]. split; [exact Hcache|].
  split; [by destruct (get_frame self key w) as (? & _)|].
  intros Hv.
  pose proof (exec_get_hit self key (final (exec (get self key) w)) Hc) as Hhit.
  fold pk in Hhit. unfold cached in Hhit. rewrite Hcache in Hhit.
  change (default PNone (Some v)) with v in Hhit. by apply Hhit.
Qed.

Lemma get_populates_cache_witness :
  is_set (_cache small_site) = true ∧ db_fault stored_only = None ∧
  "B" ≠ _autofill_cachekey ∧
  cache stored_only !! add_prefix small_site "B" = None ∧
  res (exec (get small_site "B") stored_only) = Ok (PInt 2) ∧
  cache (final (exec (get small_site "B") stored_only)) !! add_prefix small_site "B"
    = Some (PInt 2).
Proof.
  assert ("B" ≠ _autofill_cachekey) as Hk by discriminate.
  assert (cache stored_only !! add_prefix small_site "B" = None) as Hm
    by (vm_compute; reflexivity).
  split; [reflexivity|]. split; [reflexivity|]. split; [exact Hk|]. split; [exact Hm|].
  destruct (get_populates_cache small_site "B" (PInt 2) stored_only
              eq_refl eq_refl Hk Hm eq_refl) as (H1 & H2 & _).
  by split.
Defined.

Lemma mget_frame self keys fallback w :
  let o := exec (mget self keys fallback) w in
  rows (final o) = rows w ∧ db_fault (final o) = db_fault w ∧
  count is_db_write (trace o) = 0 ∧ count is_signal (trace o) = 0 ∧
  (is_set (_cache self) = false →
   count is_cache_call (trace o) = 0 ∧ count is_enter_autofill (trace o) = 0 ∧
   cache (final o) = cache w).
Proof.
  cbv zeta. destruct keys as [|k0 keys'] eqn:Hkeys.
  { rewrite exec_mget_nil. by cbn [res final trace]. }
  rewrite <- Hkeys in *. assert (keys ≠ []) as Hne by by rewrite Hkeys. clear Hkeys.
  destruct (is_set (_cache self) && fallback) eqn:Hcf.
  - apply andb_true_iff in Hcf as [Hc ->].
    rewrite (exec_mget_cached self keys w Hc Hne). cbv zeta. cbn [res final trace].
    destruct (autofill_total self w) as (_ & Hr & Hfa & _ & _ & Hw & Hs & _).
    set (pend := bool_decide _).
    assert (∀ x, count is_db_write (if pend then [] else [db_filter x]) = 0 ∧
                 count is_signal (if pend then [] else [db_filter x]) = 0) as Htail
      by (intros x; by destruct pend).
    match goal with |- context [if pend then [] else [db_filter ?x]] =>
      destruct (Htail x) as [Ht1 Ht2] end.
    destruct (negb _).
    + split; [done|]. split; [done|].
      split; [count_calls; rewrite Hw, Ht1; lia|].
      split; [count_calls; rewrite Hs, Ht2; lia|]. by rewrite Hc.
    + split; [done|]. split; [done|].
      split; [count_calls; rewrite Ht1; lia|].
      split; [count_calls; rewrite Ht2; lia|]. by rewrite Hc.
  - rewrite (exec_mget_uncached self keys fallback w Hcf Hne). cbv zeta.
    by cbn [res final trace].
Qed.

(** X12 -- Reads and invalidation leave the table alone: [get], [mget],
    [autofill] and [clear] never create or save a record and never send
    a signal; the table and the availability of the database are the
    same after as before, whatever the state and whether they returned
    or raised. *)
Theorem reads_leave_table self key keys fallback created w :
  let untouched {A} (o : outcome A) :=
    rows (final o) = rows w ∧ db_fault (final o) = db_fault w ∧
    count is_db_write (trace o) = 0 ∧ count is_signal (trace o) = 0 in
  untouched (exec (get self key) w) ∧
  untouched (exec (mget self keys fallback) w) ∧
  untouched (exec (autofill self) w) ∧
  untouched (exec (clear self created) w).
Proof.
  cbv zeta.
  destruct (get_frame self key w) as (G1 & G2 & G3 & G4 & _).
  destruct (mget_frame self keys fallback w) as (M1 & M2 & M3 & M4 & _).
  destruct (autofill_total self w) as (_ & A1 & A2 & _ & _ & A3 & A4 & _).
  destruct (clear_frame self created w) as (_ & C1 & C2 & C3 & C4 & _).
  done.
Qed.

(** X13 -- A backend without a cache never calls one: with [_cache] None,
    none of [get], [mget], [set], [clear] and [autofill] makes a cache
    call, and the contents of the shared cache are unchanged. *)
Theorem uncached_backend_makes_no_cache_call self key value keys fallback created w :
  _cache self = None →
  let quiet {A} (o : outcome A) :=
    count is_cache_call (trace o) = 0 ∧ cache (final o) = cache w in
  quiet (exec (get self key) w) ∧
  quiet (exec (mget self keys fallback) w) ∧
  quiet (exec (set self key value) w) ∧
  quiet (exec (clear self created) w) ∧
  quiet (exec (autofill self) w).
Proof.
  intros Hnone. cbv zeta.
  assert (is_set (_cache self) = false) as Hc by by rewrite Hnone.
  destruct (get_frame self key w) as (_ & _ & _ & _ & _ & _ & G).
  destruct (G Hc) as (G1 & _ & G2).
  destruct (mget_frame self keys fallback w) as (_ & _ & _ & _ & M).
  destruct (M Hc) as (M1 & _ & M2).
  destruct (clear_frame self created w) as (_ & _ & _ & _ & _ & C).
  rewrite (C Hc). rewrite (exec_autofill_disabled self w) by by right.
  split; [done|]. split; [done|]. split; [|done].
  destruct (db_fault w) as [f|] eqn:Hf.
  { by rewrite (exec_set_unavailable self key value w f Hf). }
  destruct (records (add_prefix self key) (rows w)) as [|r [|r' l]] eqn:Hrec.
  - rewrite (exec_set_create self key value w Hf Hrec). cbv zeta. by rewrite Hc.
  - rewrite (exec_set_update self key value w r Hf Hrec). cbv zeta. rewrite Hc.
    unfold post_save.
    match goal with |- context [exec (clear self false) ?x] =>
      destruct (clear_frame self false x) as (_ & _ & _ & _ & _ & C') end.
    by rewrite (C' Hc).
  - by rewrite (exec_set_duplicates self key value w r r' l Hf Hrec).
Qed.

Lemma uncached_backend_makes_no_cache_call_witness :
  _cache (Backend "" None None ["A"]) = None ∧
  cache (final (exec (set (Backend "" None None ["A"]) "A" (PInt 3)) stale))
    = cache stale.
Proof.
  split; [reflexivity|].
  destruct (uncached_backend_makes_no_cache_call (Backend "" None None ["A"])
              "A" (PInt 3) ["A"] true false stale eq_refl)
    as (_ & _ & (_ & H) & _).
  exact H.
Defined.

(** ** [clear]: the cache after an invalidation *)

Lemma lookup_purged (m : gmap string pyval) ks k :
  k ∈ ks → foldr delete m ks !! k = None.
Proof.
  induction ks as [|x ks IH]; intros Hk; [by apply elem_of_nil in Hk|].
  simpl. destruct (decide (x = k)) as [->|N]; [apply lookup_delete_eq|].
  rewrite lookup_delete_ne by done. apply IH.
  by apply elem_of_cons in Hk as [->|Hk].
Qed.

(** X14 -- Invalidation re-warms from the table: after [clear] for an edited
    record (cache configured, nonzero window, database available), the
    cache entry of every registry key other than "autofilled" is the
    value of the key's record, whatever was cached before, and a
    registry key without a record has no cache entry left. *)
Theorem clear_rewarms self w key :
  is_set (_cache self) = true →
  timeout_set (_autofill_timeout self) = true →
  db_fault w = None →
  key ∈ CONFIG self → key ≠ _autofill_cachekey →
  let o := exec (clear self false) w in
  let pk := add_prefix self key in
  (∀ v, records pk (rows w) = [Row pk v] → cache (final o) !! pk = Some v) ∧
  (records pk (rows w) = [] → cache (final o) !! pk = None).
Proof.
  intros Hc Ht Hf Hin Hkey. cbv zeta. set (pk := add_prefix self key).
  unfold clear. rewrite Hc. cbn [andb negb].
  rewrite exec_bind. exec_call. unfold and_then. cbn [res final trace perform fst snd].
  fold (full_cachekey self).
  set (ks := map (add_prefix self) (CONFIG self) ++ [full_cachekey self]).
  set (purged := set_cache w (foldr delete (cache w) ks)).
  assert (truthy (cached purged (full_cachekey self)) = false) as Hm.
  { unfold cached, purged. cbn [cache set_cache]. rewrite lookup_purged; [done|].
    apply elem_of_app. right. by left. }
  assert (cache purged !! pk = None) as Hgone.
  { unfold purged. cbn [cache set_cache]. apply lookup_purged.
    apply elem_of_app. left. apply list_elem_of_In, in_map. by apply list_elem_of_In. }
  rewrite (exec_autofill_cold self purged Ht Hc Hm). cbv zeta.
  cbn [res final trace cache set_cache]. split.
  - intros v Hrec. apply lookup_union_Some_l.
    by apply (autofill_batch_record self purged key v).
  - intros Hrec. rewrite lookup_union_r; [exact Hgone|].
    apply autofill_batch_outside.
    + intros E. by apply add_prefix_inj in E.
    + intros key' v _ _. by apply records_nil_absent.
Qed.

Lemma clear_rewarms_witness :
  is_set (_cache site) = true ∧ timeout_set (_autofill_timeout site) = true ∧
  db_fault stale = None ∧
  cache stale !! add_prefix site "A" = Some (PInt 0) ∧
  cache (final (exec (clear site false) stale)) !! add_prefix site "A" = Some (PInt 1).
Proof.
  assert ("A" ∈ CONFIG site) as Hin by by left.
  assert ("A" ≠ _autofill_cachekey) as Hk by discriminate.
  split; [reflexivity|]. split; [reflexivity|]. split; [reflexivity|].
  split; [vm_compute; reflexivity|].
  destruct (clear_rewarms site stale "A" eq_refl eq_refl eq_refl Hin Hk) as [H _].
  apply H. reflexivity.
Defined.

(** ** [set] and the other keys *)

Lemma lookup_purged_other (m : gmap string pyval) ks k :
  k ∉ ks → foldr delete m ks !! k = m !! k.
Proof.
  induction ks as [|x ks IH]; intros Hk; [done|].
  apply not_elem_of_cons in Hk as [Hne Hk]. simpl.
  rewrite lookup_delete_ne by done. by apply IH.
Qed.

(** The receiver of [post_save] touches no cache entry other than the
    sentinel's and those of the registry's keys. *)
Lemma receiver_leaves_other_entries self created w k :
  k ≠ full_cachekey self →
  (∀ key, key ∈ CONFIG self → k ≠ add_prefix self key) →
  cache (final (exec (post_save self created) w)) !! k = cache w !! k.
Proof.
  intros Hk Hout. unfold post_save, clear.
  destruct (is_set (_cache self) && negb created); [|done].
  rewrite exec_bind. exec_call. unfold and_then. cbn [res final trace perform fst snd].
  set (purged := set_cache w _).
  assert (cache purged !! k = cache w !! k) as Hp.
  { unfold purged. cbn [cache set_cache]. apply lookup_purged_other.
    intros Hin. apply elem_of_app in Hin as [Hin|Hin].
    - apply list_elem_of_In, in_map_iff in Hin as (key & E & Hin).
      apply list_elem_of_In in Hin. by apply (Hout key Hin).
    - apply list_elem_of_singleton in Hin. by apply Hk. }
  destruct (autofill_cases self purged) as [E|[[_ E]|(_ & _ & _ & E)]];
    rewrite E; cbn [res final trace]; try done.
  cbn [cache set_cache]. rewrite lookup_union_r; [done|].
  apply autofill_batch_outside; [done|]. intros key v Hin ->. by destruct (Hout key Hin).
Qed.

(** X1 -- [set] touches only its own key in the table: the records of
    every other key and the availability of the database are as
    before.  In the cache it can touch, besides its own key, only the
    sentinel and the keys of the registry -- which the receiver of
    [post_save] purges and re-warms when the record existed: every
    other entry is as before, and when [set] creates the record no
    other entry changes at all. *)
Theorem set_touches_only_its_key self key value w k :
  k ≠ add_prefix self key →
  let o := exec (set self key value) w in
  records k (rows (final o)) = records k (rows w) ∧
  db_fault (final o) = db_fault w ∧
  ((k ≠ full_cachekey self ∧ ∀ key', key' ∈ CONFIG self → k ≠ add_prefix self key') ∨
   records (add_prefix self key) (rows w) = [] →
   cache (final o) !! k = cache w !! k).
Proof.
  intros Hk. cbv zeta. destruct (db_fault w) as [f|] eqn:Hf.
  { rewrite (exec_set_unavailable self key value w f Hf). by cbn [final]. }
  destruct (exec_set_cases self key value w Hf)
    as [(_ & _ & -> & _)|[(r & Hrec & _ & -> & _)|(_ & ->)]].
  - destruct (is_set (_cache self)); cbn [rows cache db_fault set_cache set_rows];
      rewrite ?lookup_insert_ne by done; by rewrite records_create_other.
  - receiver_frame.
    assert (cache (if is_set (_cache self)
                   then set_cache
                          (final (exec (post_save self false)
                             (set_rows w (update_rows (Row (add_prefix self key) value)
                                                      (rows w)))))
                          (<[add_prefix self key:=value]>
                             (cache (final (exec (post_save self false)
                                (set_rows w (update_rows (Row (add_prefix self key) value)
                                                         (rows w)))))))
                   else final (exec (post_save self false)
                          (set_rows w (update_rows (Row (add_prefix self key) value)
                                                   (rows w))))) !! k
            = cache (final (exec (post_save self false)
                       (set_rows w (update_rows (Row (add_prefix self key) value)
                                                (rows w))))) !! k) as Hc.
    { destruct (is_set (_cache self)); [|done]. cbn [cache set_cache].
      by rewrite lookup_insert_ne. }
    rewrite Hc, rows_refreshed, Hrows.
    split; [cbn [rows set_rows]; by rewrite records_update_other|].
    split; [destruct (is_set (_cache self)); cbn [db_fault set_cache]; by rewrite Hfault|].
    intros [[Hs Hout]|Hnone]; [|by rewrite Hnone in Hrec].
    by rewrite receiver_leaves_other_entries.
  - by cbn [final].
Qed.

Lemma set_touches_only_its_key_witness :
  "C" ≠ add_prefix site "A" ∧
  records "C" (rows (final (exec (set site "A" (PInt 7)) partly_cached)))
    = records "C" (rows partly_cached) ∧
  cache (final (exec (set site "A" (PInt 7))
                     (World {[ "A" := PInt 1; "C" := PInt 3 ]} None [Row "A" (PInt 1)])))
    !! "C" = Some (PInt 3).
Proof.
  assert ("C" ≠ add_prefix site "A") as H by discriminate.
  split; [exact H|].
  destruct (set_touches_only_its_key site "A" (PInt 7) partly_cached "C" H) as (E & _).
  split; [exact E|].
  destruct (set_touches_only_its_key site "A" (PInt 7)
              (World {[ "A" := PInt 1; "C" := PInt 3 ]} None [Row "A" (PInt 1)]) "C" H)
    as (_ & _ & Hc).
  rewrite Hc; [vm_compute; reflexivity|]. left. split; [discriminate|].
  intros key' Hin. apply elem_of_cons in Hin as [->|Hin]; [discriminate|].
  apply elem_of_cons in Hin as [->|Hin]; [discriminate|]. by apply elem_of_nil in Hin.
Defined.




(** ** Sequences of requests *)

Lemma mget_total self keys fallback w :
  ∃ out, res (exec (mget self keys fallback) w) = Ok out.
Proof.
  destruct keys as [|k0 keys'] eqn:Hkeys; [by eexists|].
  rewrite <- Hkeys in *. assert (keys ≠ []) as Hne by by rewrite Hkeys. clear Hkeys.
  destruct (is_set (_cache self) && fallback) eqn:Hcf.
  - apply andb_true_iff in Hcf as [Hc ->].
    rewrite (exec_mget_cached self keys w Hc Hne). by eexists.
  - rewrite (exec_mget_uncached self keys fallback w Hcf Hne). by eexists.
Qed.

Lemma serve_ok self r w :
  unique_keys (rows w) →
  let o := exec (serve self r) w in
  res o = Ok tt ∧ unique_keys (rows (final o)) ∧ db_fault (final o) = db_fault w.
Proof.
  intros Hu. cbv zeta. destruct r as [key|keys fallback|key value|created|]; cbn [serve].
  - rewrite exec_bind. unfold and_then.
    destruct (get_frame self key w) as (Hr & Hf & _ & _ & _ & Hres & _).
    destruct Hres as [v Hv].
    { destruct (unique_keys_records (add_prefix self key) (rows w) Hu) as [E|[x E]];
        rewrite E; simpl; lia. }
    rewrite Hv. cbn [exec res final]. by rewrite Hr, Hf.
  - rewrite exec_bind. unfold and_then.
    destruct (mget_frame self keys fallback w) as (Hr & Hf & _).
    destruct (mget_total self keys fallback w) as [out Hout].
    rewrite Hout. cbn [exec res final]. by rewrite Hr, Hf.
  - apply set_total. exact Hu.
  - destruct (clear_frame self created w) as (Hres & Hr & Hf & _). by rewrite Hres, Hr, Hf.
  - destruct (autofill_total self w) as (Hres & Hr & Hf & _). by rewrite Hres, Hr, Hf.
Qed.

(** X15 -- The backend is exception-free on a well-formed table: starting
    from a table whose keys are unique, any sequence of [get], [mget],
    [set], [clear] and [autofill] calls, with any arguments and whether
    or not the database is available, runs to its end without raising,
    and the keys of the table are unique afterwards. *)
Theorem requests_never_raise self reqs w :
  unique_keys (rows w) →
  let o := exec (serve_all self reqs) w in
  res o = Ok tt ∧ unique_keys (rows (final o)) ∧ db_fault (final o) = db_fault w.
Proof.
  revert w. induction reqs as [|r reqs IH]; intros w Hu; [done|].
  cbv zeta. cbn [serve_all]. rewrite exec_bind. unfold and_then.
  destruct (serve_ok self r w Hu) as (Hres & Hu1 & Hf1). rewrite Hres.
  destruct (IH _ Hu1) as (Hres2 & Hu2 & Hf2). cbn [res final].
  split; [done|]. split; [done|]. by rewrite Hf2.
Qed.

Lemma requests_never_raise_witness :
  unique_keys (rows partly_cached) ∧
  res (exec (serve_all site [ReqSet "C" PNone; ReqGet "autofilled"; ReqSaved false;
                             ReqMget ["A"; "C"; "D"] true; ReqSet "A" (PStr "x")])
            partly_cached) = Ok tt.
Proof.
  assert (unique_keys (rows partly_cached)) as H
    by (apply (bool_decide_unpack _); vm_compute; reflexivity).
  split; [exact H|].
  destruct (requests_never_raise site
              [ReqSet "C" PNone; ReqGet "autofilled"; ReqSaved false;
               ReqMget ["A"; "C"; "D"] true; ReqSet "A" (PStr "x")] partly_cached H)
    as (E & _).
  exact E.
Defined.

(** ** [get] after [set] *)

(** X16 -- Read-after-write through [get], for every configuration: after a
    [set] on an available database with unique keys, [get] of the key
    returns the value written -- provided the value is not None, or the
    key is not "autofilled", or no cache is configured. *)
Theorem get_after_set self key value w :
  db_fault w = None → unique_keys (rows w) →
  value ≠ PNone ∨ key ≠ _autofill_cachekey ∨ _cache self = None →
  res (exec (get self key) (final (exec (set self key value) w))) = Ok value.
Proof.
  intros Hf Hu Hcond.
  destruct (set_total self key value w Hu) as (Hres & _ & _).
  destruct (is_set (_cache self)) eqn:Hc.
  - apply read_after_write; [done|done|done|].
    destruct Hcond as [H|[H|H]]; [by left|by right|]. by rewrite H in Hc.
  - destruct (set_result self key value w Hf Hres) as (Hrec & Hf' & _).
    rewrite get_phases, exec_bind, exec_get_cache_phase, Hc. unfold and_then.
    cbn [res final trace]. rewrite exec_get_db_phase, Hf', Hrec, Hc.
    by destruct (is_None value) eqn:Hn; [|done].
Qed.

Lemma get_after_set_witness :
  db_fault partly_cached = None ∧ unique_keys (rows partly_cached) ∧
  res (exec (get prefixed_site "B")
            (final (exec (set prefixed_site "B" (PStr "x")) partly_cached)))
  = Ok (PStr "x").
Proof.
  assert (unique_keys (rows partly_cached)) as Hu
    by (apply (bool_decide_unpack _); vm_compute; reflexivity).
  assert (PStr "x" ≠ PNone ∨ "B" ≠ _autofill_cachekey ∨ _cache prefixed_site = None)
    as Hc by (left; discriminate).
  split; [reflexivity|]. split; [exact Hu|].
  exact (get_after_set prefixed_site "B" (PStr "x") partly_cached eq_refl Hu Hc).
Defined.

(** ** The constructor *)

Lemma init_ok s c :
  __init__ s = inr c →
  let self := Backend (DATABASE_PREFIX s) (DATABASE_CACHE_AUTOFILL_TIMEOUT s)
                      (backend_named (DATABASE_CACHE_BACKEND s)) (REGISTRY s) in
  c = Constructed self (autofill self) (clear self) ∧
  app_config s = true ∧
  ∀ alias, backend_named (DATABASE_CACHE_BACKEND s) = Some alias →
           caches s !! alias = Some CrossProcessCache.
Proof.
  unfold __init__. destruct (app_config s); cbn [negb]; [|discriminate].
  destruct (backend_named (DATABASE_CACHE_BACKEND s)) as [alias|].
  - destruct (caches s !! alias) as [[]|] eqn:E; try discriminate.
    intros [= <-]. cbv zeta. split; [done|]. split; [done|]. by intros ? [= <-].
  - intros [= <-]. cbv zeta. split; [done|]. split; [done|]. by intros ? [=].
Qed.

(** X17 -- Which settings [__init__] accepts, and what it sets up.  The
    construction goes through exactly when the application is installed
    and the cache setting is empty or names a configured cache that is
    not a local-memory one.  The backend it builds has the prefix,
    expiry and registry of the settings and holds a cache exactly when
    the setting names one, never a local-memory cache.  The call of
    line 50 runs [autofill] once, which returns without raising and
    leaves the table alone.  The receiver connected on line 52 is what a
    save dispatches: a [set] that updates a record runs, between its
    [save] and its cache write, the calls of that receiver for
    [created=False], on the world the save left; for [created=True] the
    receiver makes no call. *)
Theorem init_accepts s :
  ((∃ c, __init__ s = inr c) ↔
   app_config s = true ∧
   ∀ alias, backend_named (DATABASE_CACHE_BACKEND s) = Some alias →
            caches s !! alias = Some CrossProcessCache) ∧
  (∀ c, __init__ s = inr c →
        let self := instance c in
        _prefix self = DATABASE_PREFIX s ∧
        _autofill_timeout self = DATABASE_CACHE_AUTOFILL_TIMEOUT s ∧
        CONFIG self = REGISTRY s ∧
        _cache self = backend_named (DATABASE_CACHE_BACKEND s) ∧
        (∀ alias, _cache self = Some alias → caches s !! alias ≠ Some LocMemCache) ∧
        (∀ w, let o := exec (startup c) w in
              res o = Ok tt ∧ count is_enter_autofill (trace o) = 1 ∧
              rows (final o) = rows w) ∧
        (∀ w, exec (post_save_receiver c true) w = Outcome (Ok tt) w []) ∧
        (∀ key value w r,
           db_fault w = None → records (add_prefix self key) (rows w) = [r] →
           let pk := add_prefix self key in
           let o := exec (post_save_receiver c false)
                         (set_rows w (update_rows (Row pk value) (rows w))) in
           trace (exec (set self key value) w) =
           [db_get pk; db_save (Row pk value)] ++ trace o
             ++ (if is_set (_cache self) then [cache_set pk value] else [])
             ++ [signal_send pk (Constance.value r) value])).
Proof.
  split; [split|].
  - intros [c Hc]. by destruct (init_ok s c Hc) as (_ & Ha & Hb).
  - intros [Ha Hb]. unfold __init__. rewrite Ha. cbn [negb].
    destruct (backend_named (DATABASE_CACHE_BACKEND s)) as [alias|]; [|by eexists].
    rewrite (Hb alias eq_refl). by eexists.
  - intros c Hc. destruct (init_ok s c Hc) as (-> & _ & Hb). cbv zeta.
    cbn [instance startup post_save_receiver _prefix _autofill_timeout CONFIG _cache].
    set (self := Backend _ _ _ _).
    split; [done|]. split; [done|]. split; [done|]. split; [done|].
    split; [intros alias E; by rewrite (Hb alias E)|].
    split; [intros w; by destruct (autofill_total self w) as (? & ? & _ & ? & _)|].
    split.
    { intros w. unfold clear. by rewrite andb_false_r. }
    intros key value w r Hf Hrec.
    by rewrite (exec_set_update self key value w r Hf Hrec).
Qed.

(** X18 -- Construction warms the cache: for a backend built by [__init__]
    with a cache and a nonzero autofill window, once the call of
    [autofill] at the end of the constructor has run its scan on an
    available database, the first [get] of a registry key (other than
    "autofilled") whose record holds a value other than None is served
    by a single cache read, without a database query. *)
Theorem construction_warms_cache s c w key v :
  __init__ s = inr c →
  is_set (backend_named (DATABASE_CACHE_BACKEND s)) = true →
  timeout_set (DATABASE_CACHE_AUTOFILL_TIMEOUT s) = true →
  db_fault w = None →
  truthy (cached w (full_cachekey (instance c))) = false →
  key ∈ REGISTRY s → key ≠ _autofill_cachekey →
  records (add_prefix (instance c) key) (rows w) = [Row (add_prefix (instance c) key) v] →
  v ≠ PNone →
  let self := instance c in
  let w1 := final (exec (startup c) w) in
  exec (get self key) w1 = Outcome (Ok v) w1 [cache_get (add_prefix self key)].
Proof.
  intros Hc Hb Ht Hf Hm Hin Hkey Hrec Hv. cbv zeta.
  destruct (init_ok s c Hc) as (-> & _ & _).
  cbn [instance startup] in *.
  set (self := Backend _ _ _ _) in *.
  assert (cache (final (exec (autofill self) w)) !! add_prefix self key = Some v) as Hw.
  { rewrite (exec_autofill_cold self w Ht Hb Hm). cbv zeta. cbn [final cache set_cache].
    apply lookup_union_Some_l. by apply autofill_batch_record. }
  assert (cached (final (exec (autofill self) w)) (add_prefix self key) = v) as Hcv
    by (unfold cached; by rewrite Hw).
  rewrite (exec_get_hit self key _ Hb); rewrite Hcv; done.
Qed.

Lemma construction_warms_cache_witness :
  ∃ c, __init__ (example_settings (Some "default")) = inr c ∧
       exec (get (instance c) "B") (final (exec (startup c) stored_only)) =
       Outcome (Ok (PInt 2)) (final (exec (startup c) stored_only))
               [cache_get (add_prefix (instance c) "B")].
Proof.
  assert ("B" ∈ REGISTRY (example_settings (Some "default"))) as Hin
    by (right; left).
  assert ("B" ≠ _autofill_cachekey) as Hk by discriminate.
  assert (PInt 2 ≠ PNone) as Hv by discriminate.
  eexists. split; [vm_compute; reflexivity|].
  exact (construction_warms_cache (example_settings (Some "default")) _ stored_only
           "B" (PInt 2) eq_refl eq_refl eq_refl eq_refl eq_refl Hin Hk eq_refl Hv).
Defined.

(** ** The signal of [set] *)

Lemma set_notification_witness :
  db_fault fresh = None ∧
  res (exec (set prefixed_site "A" (PInt 7)) fresh) = Ok tt ∧
  List.filter is_signal (trace (exec (set prefixed_site "A" (PInt 7)) fresh)) =
  [signal_send "constance:A" PNone (PInt 7)].
Proof.
  split; [reflexivity|].
  exact (set_notification prefixed_site "A" (PInt 7) fresh eq_refl).
Defined.

(** ** [mget] on cached keys *)

(** X19 -- A fully cached [mget] is one cache round trip: when the cache
    holds an entry for every requested key, [mget] makes the single call
    [get_many] -- no [autofill], no database query, nothing changed,
    whether or not the database is available -- and yields exactly the
    requested keys with their cached values. *)
Theorem mget_all_cached self keys w :
  is_set (_cache self) = true → keys ≠ [] →
  (∀ k, k ∈ keys → is_Some (cache w !! add_prefix self k)) →
  let o := exec (mget self keys true) w in
  final o = w ∧
  trace o = [cache_get_many (dom (prefixed_keys self keys))] ∧
  ∃ out, res o = Ok out ∧
    ∀ k v, (k, v) ∈ out ↔ k ∈ keys ∧ cache w !! add_prefix self k = Some v.
Proof.
  intros Hc Hne Hall. cbv zeta.
  rewrite (exec_mget_cached self keys w Hc Hne). cbv zeta.
  set (kd := prefixed_keys self keys).
  assert (∀ pk, pk ∈ dom kd → get_many_reply (dom kd) w !! pk = cache w !! pk ∧
                               is_Some (cache w !! pk)) as Hhit.
  { intros pk Hpk. split; [by apply get_many_reply_lookup|].
    apply elem_of_dom in Hpk as [k Hk]. apply prefixed_keys_inv in Hk as [Hk ->].
    by apply Hall. }
  assert (dom (get_many_reply (dom kd) w) = dom kd) as Hdom.
  { apply set_eq. intros pk. rewrite (elem_of_dom (get_many_reply _ _)). split.
    - intros [v Hv]. by apply map_lookup_filter_Some in Hv as [_ Hv].
    - intros Hpk. destruct (Hhit pk Hpk) as [-> H]. done. }
  assert (size (get_many_reply (dom kd) w) = size kd) as Hsize
    by by rewrite <- !size_dom, Hdom.
  rewrite Hsize, Nat.eqb_refl. cbn [negb].
  assert (filter (λ kv : string * string, get_many_reply (dom kd) w !! kv.1 = None) kd = ∅)
    as Hpending.
  { apply map_eq. intros pk. rewrite lookup_empty. apply map_lookup_filter_None.
    destruct (kd !! pk) as [k|] eqn:Hk; [right|by left]. intros k' [= <-]. simpl.
    destruct (Hhit pk) as [-> [v Hv]]; [by apply elem_of_dom; eexists|]. by rewrite Hv. }
  rewrite Hpending. rewrite bool_decide_eq_true_2 by done.
  cbn [res final trace app]. split; [done|]. split; [done|].
  eexists. split; [done|]. intros k v. rewrite elem_of_hit_pairs. split.
  - intros (pk & Hv & Hk). apply prefixed_keys_inv in Hk as [Hk ->].
    by apply map_lookup_filter_Some in Hv as [Hv _].
  - intros [Hk Hv]. exists (add_prefix self k). split.
    + rewrite get_many_reply_lookup; [done|]. apply elem_of_dom.
      exists k. by apply prefixed_keys_elem.
    + by apply prefixed_keys_elem.
Qed.

Lemma mget_all_cached_witness :
  is_set (_cache site) = true ∧ ["A"] ≠ [] ∧
  is_Some (cache cached_but_down !! add_prefix site "A") ∧
  final (exec (mget site ["A"] true) cached_but_down) = cached_but_down ∧
  trace (exec (mget site ["A"] true) cached_but_down) =
  [cache_get_many (dom (prefixed_keys site ["A"]))].
Proof.
  assert (["A"] ≠ @nil string) as Hne by discriminate.
  assert (is_Some (cache cached_but_down !! add_prefix site "A")) as Hsome
    by (exists (PInt 1); vm_compute; reflexivity).
  assert (∀ k, k ∈ ["A"] → is_Some (cache cached_but_down !! add_prefix site k)) as Hall.
  { intros k Hk. apply elem_of_cons in Hk as [->|Hk]; [exact Hsome|].
    by apply elem_of_nil in Hk. }
  split; [reflexivity|]. split; [exact Hne|]. split; [exact Hsome|].
  destruct (mget_all_cached site ["A"] cached_but_down eq_refl Hne Hall)
    as (Hf & Ht & _).
  split; [exact Hf|exact Ht].
Defined.
